(** * prompt-stream: a shallow embedding of [app.py]

    The program is a Streamlit script: a SQLite-backed template table
    (SQLAlchemy), a seeding loop run at every start, four CRUD modes in
    the sidebar, and a generation action that renders one prompt per CSV
    row (csv.DictReader + jinja2.Template) and zips the output
    directory.

    Python [str] values are sequences of Unicode code points; they are
    modelled as [list N], so that U+FEFF is one character, as it is for
    [str.strip] and [str.replace].  Python dicts are insertion-ordered
    association lists with unique keys.  Directories are finite maps
    from entry names to nodes. *)

From Stdlib Require Import NArith ZArith String Ascii DecimalString DecimalNat.
From stdpp Require Import gmap list.

Local Open Scope N_scope.

(** ** Python strings *)

Module PyStr.

Abbreviation pystr := (list N).

(** A literal written in ASCII, as a sequence of code points. *)
Definition u (s : string) : pystr :=
  map N_of_ascii (list_ascii_of_string s).
#[global] Arguments u _%_string.

(** [Py_UNICODE_ISSPACE]: the characters [str.strip()] removes.
    U+FEFF is not one of them. *)
Definition isspace (c : N) : bool :=
  (9 <=? c) && (c <=? 13) || (28 <=? c) && (c <=? 32)
  || (c =? 133) || (c =? 160) || (c =? 5760)
  || (8192 <=? c) && (c <=? 8202)
  || (c =? 8232) || (c =? 8233) || (c =? 8239) || (c =? 8287)
  || (c =? 12288).

Fixpoint lstrip (s : pystr) : pystr :=
  match s with
  | c :: s' => if isspace c then lstrip s' else s
  | [] => []
  end.

Definition rstrip (s : pystr) : pystr := reverse (lstrip (reverse s)).

(** [s.strip()] *)
Definition strip (s : pystr) : pystr := rstrip (lstrip s).

Fixpoint startswith (s pre : pystr) : bool :=
  match pre, s with
  | [], _ => true
  | p :: pre', c :: s' => (c =? p) && startswith s' pre'
  | _ :: _, [] => false
  end.

(** [s.endswith(suf)] *)
Definition endswith (s suf : pystr) : bool :=
  startswith (reverse s) (reverse suf).

(** Scan of [str.replace] for a non-empty [old]: left to right,
    non-overlapping; [skip] counts the characters of a match that are
    still to be passed over. *)
Fixpoint replace_from (old new : pystr) (skip : nat) (s : pystr) : pystr :=
  match s with
  | [] => []
  | c :: s' =>
      match skip with
      | S k => replace_from old new k s'
      | O =>
          if startswith s old
          then new ++ replace_from old new (length old - 1) s'
          else c :: replace_from old new 0 s'
      end
  end.

(** [s.replace(old, new)]; an empty [old] matches before every
    character and at the end. *)
Definition replace (s old new : pystr) : pystr :=
  match old with
  | [] => new ++ flat_map (fun c => c :: new) s
  | _ :: _ => replace_from old new 0 s
  end.

(** Decimal rendering of an integer, as in an f-string. *)
Definition str_of_nat (n : nat) : pystr :=
  u (NilEmpty.string_of_uint (Nat.to_uint n)).

Definition BOM : N := 65279.

End PyStr.
Export PyStr.

(** ** Python dicts: insertion-ordered, keys unique *)

Module PyDict.
Section dict.
Context {K V : Type} `{EqDecision K}.

Definition dict := list (K * V).

(** [d[k] = v]: an existing key keeps its position. *)
Fixpoint setitem (k : K) (v : V) (d : dict) : dict :=
  match d with
  | [] => [(k, v)]
  | (k0, v0) :: d' =>
      if decide (k0 = k) then (k0, v) :: d' else (k0, v0) :: setitem k v d'
  end.

(** [d.get(k)] *)
Fixpoint get (k : K) (d : dict) : option V :=
  match d with
  | [] => None
  | (k0, v0) :: d' => if decide (k0 = k) then Some v0 else get k d'
  end.

Definition keys (d : dict) : list K := map fst d.

(** [dict(items)]: later items override earlier ones. *)
Definition of_items (items : list (K * V)) : dict :=
  foldl (fun d kv => setitem (fst kv) (snd kv) d) [] items.

End dict.
#[global] Arguments dict : clear implicits.
End PyDict.

(** ** Row Sanitizer *)

(** The values a [csv.DictReader] row can hold: a field ([str]), the
    [restval] ([None]) or the list of surplus fields stored under the
    [restkey] ([None]). *)
Inductive pyobj :=
| PyStr (s : pystr)
| PyNone
| PyList (l : list pystr).

#[global] Instance pyobj_eq_dec : EqDecision pyobj.
Proof. solve_decision. Defined.

(** [k.strip().replace('\ufeff', '')] *)
Definition clean_key (k : pystr) : pystr := replace (strip k) [BOM] [].

(** [v.strip() if isinstance(v, str) else ''] *)
Definition clean_value (v : pyobj) : pystr :=
  match v with
  | PyStr s => strip s
  | _ => []
  end.

(** What the comprehension does with one item: nothing unless the key
    is a [str], else one assignment. *)
Definition assign (d : PyDict.dict pystr pystr) (kv : pyobj * pyobj)
  : PyDict.dict pystr pystr :=
  match fst kv with
  | PyStr k => PyDict.setitem (clean_key k) (clean_value (snd kv)) d
  | _ => d
  end.

(** [clean_row]: the dict comprehension visits [row.items()] in order. *)
Definition clean_row (row : PyDict.dict pyobj pyobj) : PyDict.dict pystr pystr :=
  foldl assign [] row.

(** ** Exceptions and user feedback *)

(** The exceptions the modelled paths can raise.  [Unmodelled] marks an
    input on which the model of an external library (jinja2) does not
    say what the library does. *)
Inductive exn :=
| IntegrityError
| AttributeError
| FileNotFoundError
| IsADirectoryError
| TemplateSyntaxError
| TypeError
| CsvError
| Unmodelled.

#[global] Instance exn_eq_dec : EqDecision exn.
Proof. solve_decision. Defined.

#[global] Instance result_ret : MRet (sum exn) := fun A a => inr a.
#[global] Instance result_bind : MBind (sum exn) :=
  fun A B f m => match m with inl e => inl e | inr a => f a end.

(** What a handler shows: nothing, [st.sidebar.success], [st.sidebar.error],
    or an uncaught exception. *)
Inductive feedback :=
| Quiet
| success (msg : pystr)
| error (msg : pystr)
| Raised (e : exn).

(** ** Template Store *)

Module Store.

(** The mapped class: one row of table [templates].  Timestamps are
    clock readings ([datetime.utcnow]) passed in by the caller. *)
Record PromptTemplate := {
  id : Z;
  name : pystr;
  content : pystr;
  created_at : N;
  updated_at : N
}.

(** The table, rows in rowid order. *)
Abbreviation table := (list PromptTemplate).

Definition names (t : table) : list pystr := map name t.

(** [session.query(PromptTemplate).filter_by(name=nm).first()]; Python
    [None] compares as SQL NULL and matches no row. *)
Definition filter_by_name_first (nm : option pystr) (t : table)
  : option PromptTemplate :=
  match nm with
  | Some n => List.find (fun r => bool_decide (name r = n)) t
  | None => None
  end.

(** SQLite's rowid for [INTEGER PRIMARY KEY] without AUTOINCREMENT: 1 in
    an empty table, else one more than the largest key in use.  This is
    the rule as long as the largest key is below 2^63-1; at that key
    SQLite tries unused keys at random, which the model does not
    follow. *)
Definition next_rowid (t : table) : Z :=
  match map id t with
  | [] => 1%Z
  | i :: ids => (1 + foldr Z.max i ids)%Z
  end.

(** INSERT of a new object; [name] is declared [unique=True]. *)
Definition INSERT (now : N) (nm ct : pystr) (t : table) : exn + table :=
  if bool_decide (nm ∈ names t) then inl IntegrityError
  else inr (t ++ [ {| id := next_rowid t; name := nm; content := ct;
                      created_at := now; updated_at := now |} ]).

(** UPDATE of [content] on the row with primary key [i]; no statement
    is emitted, and [onupdate] does not fire, without a net change. *)
Definition UPDATE_row (now : N) (i : Z) (ct : pystr) (r : PromptTemplate)
  : PromptTemplate :=
  if bool_decide (id r = i) then
    if bool_decide (content r = ct) then r
    else {| id := id r; name := name r; content := ct;
            created_at := created_at r; updated_at := now |}
  else r.

Definition UPDATE_content (now : N) (i : Z) (ct : pystr) (t : table) : table :=
  map (UPDATE_row now i ct) t.

(** DELETE of the row with primary key [i]. *)
Definition DELETE (i : Z) (t : table) : table :=
  filter (fun r => id r ≠ i) t.

(** The session inside one transaction: the rows it sees and the objects
    passed to [session.add] that are not flushed yet. *)
Record Session := {
  rows : table;
  pending : list (pystr * pystr)
}.

(** Flush: the pending objects are inserted in the order they were added. *)
Fixpoint flush_pending (now : N) (new : list (pystr * pystr)) (t : table)
  : exn + table :=
  match new with
  | [] => inr t
  | (nm, ct) :: new' => t' ← INSERT now nm ct t; flush_pending now new' t'
  end.

Definition flush (now : N) (ss : Session) : exn + table :=
  flush_pending now (pending ss) (rows ss).

(** *** Seeding loop (module level, lines 38-51) *)

(** [file.replace(".txt", "")] *)
Definition seed_name (file : pystr) : pystr := replace file (u ".txt") [].

(** One iteration; [f] is a listed file and the text read from it.  The
    query of the update branch autoflushes the pending objects. *)
Definition seed_file (now : N) (existing_names : list pystr) (ss : Session)
  (f : pystr * pystr) : exn + Session :=
  let name := seed_name (fst f) in
  let content := snd f in
  if bool_decide (name ∈ existing_names) then
    t ← flush now ss;
    match filter_by_name_first (Some name) t with
    | Some existing_tpl =>
        inr {| rows := UPDATE_content now (id existing_tpl) content t;
               pending := [] |}
    | None => inl AttributeError
    end
  else
    inr {| rows := rows ss; pending := pending ss ++ [(name, content)] |}.

Fixpoint seed_loop (now : N) (existing_names : list pystr)
  (fallback_files : list (pystr * pystr)) (ss : Session) : exn + Session :=
  match fallback_files with
  | [] => inr ss
  | f :: fs => ss' ← seed_file now existing_names ss f;
               seed_loop now existing_names fs ss'
  end.

(** The whole block.  [template_dir] is [os.listdir(TEMPLATE_DIR)], in
    listing order, each regular file paired with its text.  The result
    is the committed table, or the exception that aborted the
    transaction. *)
Definition seeding (now : N) (template_dir : list (pystr * pystr)) (t : table)
  : exn + table :=
  let existing_names := names t in
  let fallback_files :=
    List.filter (fun f => endswith (fst f) (u ".txt")) template_dir in
  ss ← seed_loop now existing_names fallback_files
         {| rows := t; pending := [] |};
  flush now ss.

(** The table after the block: an aborted transaction commits nothing. *)
Definition startup (now : N) (template_dir : list (pystr * pystr)) (t : table)
  : table :=
  match seeding now template_dir t with
  | inr t' => t'
  | inl _ => t
  end.

(** *** CRUD modes (lines 86-118) *)

(** Truth value of a [str]. *)
Definition truthy (s : pystr) : bool :=
  match s with [] => false | _ :: _ => true end.

(** Lines 90-96: the store-level create. *)
Definition create (now : N) (new_name new_content : pystr) (t : table)
  : table * feedback :=
  match filter_by_name_first (Some new_name) t with
  | Some _ => (t, error (u "Template with this name already exists."))
  | None =>
      match INSERT now new_name new_content t with
      | inr t' => (t', success (u "Template saved."))
      | inl e => (t, Raised e)
      end
  end.

(** Lines 86-96. *)
Definition create_mode (now : N) (button : bool) (new_name new_content : pystr)
  (t : table) : table * feedback :=
  if button && truthy new_name && truthy new_content
  then create now new_name new_content t
  else (t, Quiet).

(** Lines 98-107.  [edit_choice] is what the select box returns: one of
    the stored names, or [None] when there is none. *)
Definition edit_mode (now : N) (edit_choice : option pystr)
  (edited_content : pystr) (button : bool) (t : table) : table * feedback :=
  match filter_by_name_first edit_choice t with
  | None => (t, Raised AttributeError)
  | Some selected_tpl =>
      if button
      then (UPDATE_content now (id selected_tpl) edited_content t,
            success (u "Template updated."))
      else (t, Quiet)
  end.

(** Lines 109-118. *)
Definition delete_mode (delete_choice : option pystr) (button : bool)
  (t : table) : table * feedback :=
  if button then
    match filter_by_name_first delete_choice t with
    | Some to_delete => (DELETE (id to_delete) t,
                         success (u "Template deleted."))
    | None => (t, Quiet)
    end
  else (t, Quiet).

(** *** Reachable tables *)

Inductive action :=
| Seed (now : N) (template_dir : list (pystr * pystr))
| Create (now : N) (button : bool) (new_name new_content : pystr)
| Edit (now : N) (edit_choice : option pystr) (edited_content : pystr)
    (button : bool)
| Delete (delete_choice : option pystr) (button : bool).

Definition step (t : table) (a : action) : table :=
  match a with
  | Seed now dir => startup now dir t
  | Create now b n c => fst (create_mode now b n c t)
  | Edit now ch c b => fst (edit_mode now ch c b t)
  | Delete ch b => fst (delete_mode ch b t)
  end.

(** The tables the program can produce from a fresh database. *)
Definition reachable (t : table) : Prop :=
  exists acts : list action, t = foldl step [] acts.

End Store.

(** ** Reading the uploaded file: text mode, [csv.reader], [csv.DictReader] *)

Module Csv.

(** Text-mode newline translation: CR LF and CR become LF.  jinja2
    normalises template sources the same way. *)
Fixpoint universal_newlines (s : pystr) : pystr :=
  match s with
  | 13 :: s' =>
      match s' with
      | 10 :: _ => universal_newlines s'
      | _ => 10 :: universal_newlines s'
      end
  | c :: s' => c :: universal_newlines s'
  | [] => []
  end.

(** [open(path, 'r', encoding='utf-8-sig')]: a file is given by its
    decoded code points; the codec drops one leading U+FEFF. *)
Definition open_utf8_sig (raw : pystr) : pystr :=
  universal_newlines (match raw with
                      | c :: s => if c =? BOM then s else raw
                      | [] => []
                      end).

(** Iterating a text file: lines, each with its terminating LF. *)
Fixpoint readlines_from (cur : pystr) (s : pystr) : list pystr :=
  match s with
  | [] => match cur with [] => [] | _ => [cur] end
  | c :: s' =>
      if c =? 10 then (cur ++ [c]) :: readlines_from [] s'
      else readlines_from (cur ++ [c]) s'
  end.

Definition readlines (s : pystr) : list pystr := readlines_from [] s.

(** The states of the parser of [_csv.c] that the excel dialect uses
    (no escape character). *)
Inductive ParserState :=
| START_RECORD
| START_FIELD
| IN_FIELD
| IN_QUOTED_FIELD
| QUOTE_IN_QUOTED_FIELD
| EAT_CRNL.

#[global] Instance ParserState_eq_dec : EqDecision ParserState.
Proof. solve_decision. Defined.

Record Reader := {
  state : ParserState;
  field : pystr;
  fields : list pystr
}.

Definition parse_reset : Reader :=
  {| state := START_RECORD; field := []; fields := [] |}.

Definition field_limit : N := 131072.

Definition parse_add_char (r : Reader) (c : N) (st : ParserState)
  : exn + Reader :=
  if field_limit <=? N.of_nat (length (field r)) then inl CsvError
  else inr {| state := st; field := field r ++ [c]; fields := fields r |}.

Definition parse_save_field (r : Reader) (st : ParserState) : Reader :=
  {| state := st; field := []; fields := fields r ++ [field r] |}.

Definition set_state (r : Reader) (st : ParserState) : Reader :=
  {| state := st; field := field r; fields := fields r |}.

Definition is_newline (c : N) : bool := (c =? 10) || (c =? 13).
Definition delimiter : N := 44.
Definition quotechar : N := 34.

(** [parse_process_char]; [None] is the end-of-line sentinel. *)
Definition parse_process_char (r : Reader) (c : option N) : exn + Reader :=
  let field_start (r : Reader) :=
    match c with
    | None => inr (parse_save_field r START_RECORD)
    | Some ch =>
        if is_newline ch then inr (parse_save_field r EAT_CRNL)
        else if ch =? quotechar then inr (set_state r IN_QUOTED_FIELD)
        else if ch =? delimiter then inr (parse_save_field r START_FIELD)
        else parse_add_char r ch IN_FIELD
    end in
  match state r with
  | START_RECORD =>
      match c with
      | None => inr r
      | Some ch =>
          if is_newline ch then inr (set_state r EAT_CRNL)
          else field_start r
      end
  | START_FIELD => field_start r
  | IN_FIELD =>
      match c with
      | None => inr (parse_save_field r START_RECORD)
      | Some ch =>
          if is_newline ch then inr (parse_save_field r EAT_CRNL)
          else if ch =? delimiter then inr (parse_save_field r START_FIELD)
          else parse_add_char r ch IN_FIELD
      end
  | IN_QUOTED_FIELD =>
      match c with
      | None => inr r
      | Some ch =>
          if ch =? quotechar then inr (set_state r QUOTE_IN_QUOTED_FIELD)
          else parse_add_char r ch IN_QUOTED_FIELD
      end
  | QUOTE_IN_QUOTED_FIELD =>
      match c with
      | None => inr (parse_save_field r START_RECORD)
      | Some ch =>
          if ch =? quotechar then parse_add_char r ch IN_QUOTED_FIELD
          else if ch =? delimiter then inr (parse_save_field r START_FIELD)
          else if is_newline ch then inr (parse_save_field r EAT_CRNL)
          else parse_add_char r ch IN_FIELD
      end
  | EAT_CRNL =>
      match c with
      | None => inr (set_state r START_RECORD)
      | Some ch => if is_newline ch then inr r else inl CsvError
      end
  end.

(** One line: its characters, then the sentinel. *)
Fixpoint parse_line (r : Reader) (line : pystr) : exn + Reader :=
  match line with
  | [] => parse_process_char r None
  | c :: line' => r' ← parse_process_char r (Some c); parse_line r' line'
  end.

(** [csv.reader] run to exhaustion: the records it yields, in order, and
    the exception that ends the iteration, if any.  A record is complete
    when a line leaves the parser in [START_RECORD]. *)
Fixpoint reader_from (r : Reader) (lines : list pystr)
  : list (list pystr) * option exn :=
  match lines with
  | [] =>
      if bool_decide (field r ≠ [] ∨ state r = IN_QUOTED_FIELD)
      then ([fields (parse_save_field r START_RECORD)], None)
      else ([], None)
  | line :: lines' =>
      match parse_line r line with
      | inl e => ([], Some e)
      | inr r' =>
          if bool_decide (state r' = START_RECORD)
          then let (recs, e) := reader_from parse_reset lines' in
               (fields r' :: recs, e)
          else reader_from r' lines'
      end
  end.

Definition reader (text : pystr) : list (list pystr) * option exn :=
  reader_from parse_reset (readlines text).

(** The dict [DictReader.__next__] builds from a non-empty record:
    [dict(zip(fieldnames, row))], then the surplus fields under
    [restkey = None], or [restval = None] for the missing ones. *)
Definition DictReader_row (fieldnames row : list pystr)
  : PyDict.dict pyobj pyobj :=
  let d := PyDict.of_items (zip (PyStr <$> fieldnames) (PyStr <$> row)) in
  let lf := length fieldnames in
  let lr := length row in
  if (lf <? lr)%nat then PyDict.setitem PyNone (PyList (drop lf row)) d
  else foldl (fun d key => PyDict.setitem (PyStr key) PyNone d) d
             (drop lr fieldnames).

(** [csv.DictReader(f)]: the first record gives the field names; empty
    records after it are skipped. *)
Definition DictReader (text : pystr)
  : list (PyDict.dict pyobj pyobj) * option exn :=
  match reader text with
  | ([], e) => ([], e)
  | (fieldnames :: recs, e) =>
      (DictReader_row fieldnames <$>
         List.filter (fun row => negb (bool_decide (row = []))) recs, e)
  end.

End Csv.

(** ** Template substitution *)

(** What the program asks of the template library: [Template(source)]
    compiles a source or raises, [t.render] with the row as keyword
    arguments returns the text or raises. *)
Class TemplateEngine := {
  compiled : Type;
  Template : pystr -> exn + compiled;
  render : compiled -> PyDict.dict pystr pystr -> exn + pystr
}.

(** The part of jinja2 the examples rely on: text and [{{ name }}]
    placeholders. *)
Module Jinja.

Inductive token :=
| Data (text : pystr)
| Var (ident : pystr).

(** Lexer states: in text; after one opening brace; after two opening
    braces; inside a name; after the name; after a closing brace. *)
Inductive lexstate :=
| InData (acc : pystr)
| BraceSeen (acc : pystr)
| ExprStart
| InName (acc : pystr)
| AfterName (ident : pystr)
| CloseSeen (ident : pystr).

Definition is_name_start (c : N) : bool :=
  (65 <=? c) && (c <=? 90) || (97 <=? c) && (c <=? 122) || (c =? 95).

Definition is_name_char (c : N) : bool :=
  is_name_start c || (48 <=? c) && (c <=? 57).

Definition flush_data (acc : pystr) : list token :=
  match acc with [] => [] | _ => [Data acc] end.

(** Tokens of a source made of text and [{{ name }}] placeholders.
    Block tags, comments and richer expressions are outside the model. *)
Fixpoint lex (st : lexstate) (s : pystr) : exn + list token :=
  match s with
  | [] =>
      match st with
      | InData acc => inr (flush_data acc)
      | BraceSeen acc => inr (flush_data (acc ++ [123]))
      | _ => inl TemplateSyntaxError
      end
  | c :: s' =>
      match st with
      | InData acc =>
          if c =? 123 then lex (BraceSeen acc) s' else lex (InData (acc ++ [c])) s'
      | BraceSeen acc =>
          if c =? 123 then toks ← lex ExprStart s'; inr (flush_data acc ++ toks)
          else if (c =? 37) || (c =? 35) then inl Unmodelled
          else lex (InData (acc ++ [123; c])) s'
      | ExprStart =>
          if isspace c then lex ExprStart s'
          else if is_name_start c then lex (InName [c]) s'
          else inl Unmodelled
      | InName acc =>
          if is_name_char c then lex (InName (acc ++ [c])) s'
          else if isspace c then lex (AfterName acc) s'
          else if c =? 125 then lex (CloseSeen acc) s'
          else inl Unmodelled
      | AfterName ident =>
          if isspace c then lex (AfterName ident) s'
          else if c =? 125 then lex (CloseSeen ident) s'
          else inl Unmodelled
      | CloseSeen ident =>
          if c =? 125 then toks ← lex (InData []) s'; inr (Var ident :: toks)
          else inl Unmodelled
      end
  end.

(** Names that are constants, operators or default globals of jinja2,
    not plain variables. *)
Definition special_names : list pystr :=
  [u "true"; u "false"; u "none"; u "True"; u "False"; u "None";
   u "not"; u "and"; u "or"; u "in"; u "is"; u "if"; u "else";
   u "range"; u "dict"; u "lipsum"; u "cycler"; u "joiner"; u "namespace";
   u "self"].

(** One trailing newline of the source is dropped
    ([keep_trailing_newline=False]). *)
Definition drop_trailing_newline (s : pystr) : pystr :=
  match reverse s with
  | 10 :: s' => reverse s'
  | _ => s
  end.

(** [Template(source)] *)
Definition Template (source : pystr) : exn + list token :=
  toks ← lex (InData []) (drop_trailing_newline (Csv.universal_newlines source));
  if existsb (fun t => match t with
                        | Var x => bool_decide (x ∈ special_names)
                        | Data _ => false
                        end) toks
  then inl Unmodelled else inr toks.

(** [t.render] with the dict as keyword arguments: an undefined
    variable renders as the empty string. *)
Definition render (t : list token) (context : PyDict.dict pystr pystr) : pystr :=
  flat_map (fun tok =>
              match tok with
              | Data text => text
              | Var x => default [] (PyDict.get x context)
              end) t.

End Jinja.

(** The row reaches [render] as keyword arguments: a column named
    [self] collides with the method's own first parameter and the call
    raises [TypeError] before anything is rendered. *)
#[global] Instance jinja2 : TemplateEngine := {|
  compiled := list Jinja.token;
  Template := Jinja.Template;
  render := fun t context =>
    if bool_decide (u "self" ∈ PyDict.keys context) then inl TypeError
    else inr (Jinja.render t context)
|}.

(** ** Working directories, Prompt Renderer, Archiver, generation action *)

Module App.

(** A directory entry: a regular file with its text, or a subdirectory. *)
Inductive node :=
| File (text : pystr)
| Dir.

(** The compression methods of [zipfile]. *)
Inductive compression := ZIP_STORED | ZIP_DEFLATED | ZIP_BZIP2 | ZIP_LZMA.

(** A member of a zip archive. *)
Record ZipInfo := {
  filename : pystr;
  compress_type : compression;
  file_data : pystr
}.

(** The three fixed paths: [DATA_DIR], [OUTPUT_DIR] and [ZIP_PATH].  The
    staging directory holds the uploaded file only and is modelled as a
    flat set of regular files. *)
Record filesystem := {
  data : gmap pystr pystr;
  generated_prompts : gmap pystr node;
  output_zip : option (list ZipInfo)
}.

Definition OUTPUT_DIR : pystr := u "generated_prompts".

(** [os.path.join(a, b)] for a relative [b]. *)
Definition os_path_join (a b : pystr) : pystr := a ++ u "/" ++ b.

(** [open(path, 'w')] followed by [write] in the output directory:
    creates or truncates. *)
Definition write_file (file : pystr) (text : pystr) (d : gmap pystr node)
  : exn + gmap pystr node :=
  match d !! file with
  | Some Dir => inl IsADirectoryError
  | _ => inr (<[file := File text]> d)
  end.

(** [open(path, 'r')] followed by [read], in the staging directory. *)
Definition read_file (file : pystr) (d : gmap pystr pystr) : exn + pystr :=
  match d !! file with
  | Some text => inr text
  | None => inl FileNotFoundError
  end.

(** [f"prompt_{idx}.txt"] *)
Definition prompt_filename (idx : nat) : pystr :=
  u "prompt_" ++ str_of_nat idx ++ u ".txt".

(** The loop of [render_prompts] from index [idx] on: the output
    directory it leaves, and the list it returns or the exception that
    interrupts it.  [stop] is the exception the reader raises after its
    last row, if any. *)
Fixpoint render_loop {E : TemplateEngine} (template_str : pystr) (idx : nat)
  (rows : list (PyDict.dict pyobj pyobj)) (stop : option exn)
  (prompts : list (pystr * pystr)) (out : gmap pystr node)
  : gmap pystr node * (exn + list (pystr * pystr)) :=
  match rows with
  | [] =>
      match stop with
      | Some e => (out, inl e)
      | None => (out, inr prompts)
      end
  | row :: rows' =>
      let clean := clean_row row in
      match Template template_str with
      | inl e => (out, inl e)
      | inr t =>
          match render t clean with
          | inl e => (out, inl e)
          | inr result =>
              let filename := prompt_filename idx in
              match write_file filename result out with
              | inl e => (out, inl e)
              | inr out' =>
                  render_loop template_str (S idx) rows' stop
                    (prompts ++ [(filename, result)]) out'
              end
          end
      end
  end.

(** [render_prompts(template_str, csv_path)], with the file at
    [csv_path] given by name inside [DATA_DIR]. *)
Definition render_prompts {E : TemplateEngine} (template_str : pystr)
  (csv_name : pystr)
  (s : filesystem) : filesystem * (exn + list (pystr * pystr)) :=
  match read_file csv_name (data s) with
  | inl e => (s, inl e)
  | inr raw =>
      let (rows, stop) := Csv.DictReader (Csv.open_utf8_sig raw) in
      let (out, r) :=
        render_loop template_str 1 rows stop [] (generated_prompts s) in
      ({| data := data s; generated_prompts := out;
          output_zip := output_zip s |}, r)
  end.

(** [zipf.write(file_path, arcname=file)] on a [ZipFile] opened with the
    default compression; a directory becomes an empty member whose name
    ends with a slash. *)
Definition ZipFile_write (file : pystr) (n : node) : ZipInfo :=
  match n with
  | File text =>
      {| filename := file; compress_type := ZIP_STORED; file_data := text |}
  | Dir =>
      {| filename := file ++ u "/"; compress_type := ZIP_STORED;
         file_data := [] |}
  end.

(** [zip_output()]: mode ['w'] starts from an empty archive. *)
Definition zip_output (s : filesystem) : filesystem :=
  {| data := data s;
     generated_prompts := generated_prompts s;
     output_zip :=
       Some ((fun e => ZipFile_write (fst e) (snd e)) <$>
               map_to_list (generated_prompts s)) |}.

(** The body of the "Generate Prompts" button (lines 129-139):
    [selected] is the content of the selected template, [csv_file] the
    uploaded buffer.  Returns the file system left behind and what is
    stored in [st.session_state['results']]. *)
Definition generate {E : TemplateEngine} (selected : pystr) (csv_file : pystr)
  (s : filesystem)
  : filesystem * (exn + list (pystr * pystr)) :=
  let s1 := {| data := data s; generated_prompts := ∅;
               output_zip := output_zip s |} in
  let s2 := {| data := <[u "uploaded.csv" := csv_file]> (data s1);
               generated_prompts := generated_prompts s1;
               output_zip := output_zip s1 |} in
  let (s3, r) := render_prompts selected (u "uploaded.csv") s2 in
  match r with
  | inl e => (s3, inl e)
  | inr results => (zip_output s3, inr results)
  end.

End App.

(** ** Main panel: selection, generation button, preview (lines 121-148) *)

Module Ui.

(** What a script run carries over: the working directories and
    [st.session_state], where ['results'] is absent until a run has
    stored it. *)
Record session := {
  files : App.filesystem;
  results : option (list (pystr * pystr))
}.

(** [f"{len(results)} prompts generated ..."] *)
Definition generated_message (n : nat) : pystr :=
  str_of_nat n ++ u " prompts generated " ++ [9989].

(** Lines 121-142.  [selected_name] is what the select box returns,
    [csv_file] the uploaded buffer, if any.  An uploaded file and a
    mapped object are truthy whatever they hold.  Returns the session
    left behind and the messages shown, or the exception raised. *)
Definition generate_button {E : TemplateEngine} (selected_name : option pystr)
  (csv_file : option pystr) (button : bool) (t : Store.table) (st : session)
  : session * (exn + list pystr) :=
  match Store.filter_by_name_first selected_name t, csv_file with
  | Some selected_template, Some buffer =>
      if button then
        let (s', r) :=
          App.generate (Store.content selected_template) buffer (files st) in
        match r with
        | inl e => ({| files := s'; results := results st |}, inl e)
        | inr res =>
            ({| files := s'; results := Some res |},
             inr [u "Ready to generate prompts";
                  generated_message (length res)])
        end
      else (st, inr [u "Ready to generate prompts"])
  | _, _ => (st, inr [])
  end.

(** Lines 144-148: the pairs the preview lists, [results[:10]]; nothing
    is listed while ['results'] is absent. *)
Definition preview (st : session) : list (pystr * pystr) :=
  match results st with
  | Some rs => take 10 rs
  | None => []
  end.

End Ui.

(** * Specification vocabulary *)

(** [t] is [s] without its leading and trailing whitespace: what was cut
    off on either side is whitespace only, and [t] neither starts nor
    ends with whitespace. *)
Definition trim_of (t s : pystr) : Prop :=
  exists pre suf,
    s = pre ++ t ++ suf
    /\ forallb isspace pre = true /\ forallb isspace suf = true
    /\ (forall c, head t = Some c -> isspace c = false)
    /\ (forall c, last t = Some c -> isspace c = false).

(** The keys of a [DictReader] row that are [str]. *)
Definition is_str_key (kv : pyobj * pyobj) : bool :=
  match fst kv with PyStr _ => true | _ => false end.

(** The constraints the schema declares on table [templates]: [name] is
    unique, [id] is the primary key. *)
Definition unique_names (t : Store.table) : Prop := NoDup (Store.names t).
Definition unique_ids (t : Store.table) : Prop := NoDup (map Store.id t).

(** A handler reports a failure: an error message or an exception. *)
Definition reports_failure (fb : feedback) : Prop :=
  match fb with
  | error _ | Raised _ => True
  | Quiet | success _ => False
  end.

(** The seed files of a listing and the names the loop gives them. *)
Definition fallback_files (dir : list (pystr * pystr)) : list (pystr * pystr) :=
  List.filter (fun f => endswith f.1 (u ".txt")) dir.

Definition seed_names (files : list (pystr * pystr)) : list pystr :=
  map (fun f => Store.seed_name f.1) files.

(** The table holds text [ct] under name [n]. *)
Definition holds (t : Store.table) (n ct : pystr) : Prop :=
  exists r, Store.filter_by_name_first (Some n) t = Some r
            /\ Store.content r = ct.

(** The directory obtained by writing the given (name, text) pairs, in
    order, as regular files into [out]. *)
Definition write_all (out : gmap pystr App.node) (files : list (pystr * pystr))
  : gmap pystr App.node :=
  foldl (fun o e => <[e.1 := App.File e.2]> o) out files.

(** The members [zip_output] makes of a directory. *)
Definition members (d : gmap pystr App.node) : list App.ZipInfo :=
  (fun e => App.ZipFile_write e.1 e.2) <$> map_to_list d.

(** The largest key of an SQLite table, 2^63-1. *)
Definition rowid_max : Z := 9223372036854775807.

(** The keys of [t] are 64-bit integers and [n] more rows can be
    inserted before the largest key reaches [rowid_max], that is, while
    SQLite still numbers a new row one above the largest key. *)
Definition room_for (n : nat) (t : Store.table) : Prop :=
  (Z.of_nat n <= rowid_max)%Z
  /\ Forall (fun r => (- rowid_max - 1 <= Store.id r
                       /\ Store.id r + Z.of_nat n <= rowid_max)%Z) t.

(** Two rows are the same template: same primary key, same name, same
    creation time. *)
Definition same_identity (r r' : Store.PromptTemplate) : Prop :=
  Store.id r = Store.id r' /\ Store.name r = Store.name r'
  /\ Store.created_at r = Store.created_at r'.

(** [t'] keeps the rows of [t], in order and with their identity, and
    has after them only rows created at [now] under names from [S]. *)
Definition grows (S : list pystr) (now : N) (t t' : Store.table) : Prop :=
  exists old new,
    t' = old ++ new
    /\ Forall2 same_identity t old
    /\ Forall (fun r => Store.name r ∈ S /\ Store.created_at r = now) new.

(** The items of a row whose key is a [str]. *)
Definition str_items (row : PyDict.dict pyobj pyobj) : list (pystr * pyobj) :=
  omap (fun kv => match kv.1 with
                  | PyStr k => Some (k, kv.2)
                  | _ => None
                  end) row.

(** The (name, text) pair a zip member stands for. *)
Definition member_pair (e : App.ZipInfo) : pystr * pystr :=
  (App.filename e, App.file_data e).

(** ** Sample data *)

(** A table with one template. *)
Definition greeting_table : Store.table :=
  [ {| Store.id := 1; Store.name := u "greeting";
       Store.content := u "Hello {{ Name }}";
       Store.created_at := 1; Store.updated_at := 1 |} ].

(** A session: seed two files, create a template, edit it, delete one. *)
Definition sample_session : list Store.action :=
  [ Store.Seed 1 [(u "greeting.txt", u "Hello {{ Name }}");
                  (u "farewell.txt", u "Bye {{ Name }}");
                  (u "README.md", u "not a template")];
    Store.Create 2 true (u "memo") (u "Dear {{ Name }}");
    Store.Edit 3 (Some (u "memo")) (u "Dear {{ Title }} {{ Name }}") true;
    Store.Delete (Some (u "farewell")) true ].

(** A file system holding leftovers of earlier runs. *)
Definition leftover_fs : App.filesystem :=
  {| App.data := ∅;
     App.generated_prompts :=
       {[ u "prompt_7.txt" := App.File (u "stale"); u "old" := App.Dir ]};
     App.output_zip := Some [] |}.

(** The template and the upload of the end-to-end example. *)
Definition alice_template : pystr := u "Hello {{ Name }}, you are {{ Age }}".
Definition alice_csv : pystr := u "Name,Age" ++ [10] ++ u "Alice,30" ++ [10].
Definition alice_text : pystr := u "Hello Alice, you are 30".

(** An upload that starts with two byte-order marks and a space. *)
Definition bom_space_csv : pystr :=
  [BOM; BOM] ++ u " Name,Age" ++ [10] ++ u "Alice,30" ++ [10].

(** A template jinja2 rejects: the placeholder is never closed. *)
Definition broken_template : pystr := u "Hello {{ Name".

(** A table with two templates. *)
Definition two_table : Store.table :=
  [ {| Store.id := 1; Store.name := u "greeting";
       Store.content := u "Hello {{ Name }}";
       Store.created_at := 1; Store.updated_at := 1 |};
    {| Store.id := 2; Store.name := u "farewell";
       Store.content := u "Bye {{ Name }}";
       Store.created_at := 2; Store.updated_at := 2 |} ].

(** A seed directory: two templates and a file that is not one. *)
Definition sample_dir : list (pystr * pystr) :=
  [(u "greeting.txt", u "Hi {{ Name }}");
   (u "memo.txt", u "Dear {{ Name }}");
   (u "README.md", u "not a template")].

(** * Properties *)

(** ** Python strings *)

Section pystr_facts.

(** [N_of_ascii] is injective, hence so is [u]. *)
Lemma u_inj s1 s2 : u s1 = u s2 -> s1 = s2.
Proof.
  unfold u. intros H.
  rewrite <- (string_of_list_ascii_of_string s1),
          <- (string_of_list_ascii_of_string s2).
  f_equal.
  revert H. generalize (list_ascii_of_string s2).
  induction (list_ascii_of_string s1) as [|a l IH]; intros [|b l'] H;
    simpl in H; try discriminate; [reflexivity|].
  injection H as Hab Hl.
  f_equal; [|by apply IH].
  by rewrite <- (ascii_N_embedding a), <- (ascii_N_embedding b), Hab.
Qed.

Lemma lstrip_split s :
  exists pre, s = pre ++ lstrip s /\ forallb isspace pre = true
              /\ (forall c, head (lstrip s) = Some c -> isspace c = false).
Proof.
  induction s as [|c s (pre & Heq & Hpre & Hhd)]; simpl.
  - exists []. repeat split. intros c Hc. discriminate.
  - destruct (isspace c) eqn:Hc.
    + exists (c :: pre). simpl. rewrite Hc, Hpre. repeat split; [|done].
      by rewrite <- Heq.
    + exists []. repeat split. simpl. intros c' [= <-]. done.
Qed.

Lemma strip_trim_of s : trim_of (strip s) s.
Proof.
  unfold strip, rstrip.
  destruct (lstrip_split s) as (pre & Hs & Hpre & Hhd).
  destruct (lstrip_split (reverse (lstrip s))) as (suf & Hr & Hsuf & Hlast).
  set (m := lstrip (reverse (lstrip s))) in *.
  assert (Hm : lstrip s = reverse m ++ reverse suf).
  { rewrite <- (reverse_involutive (lstrip s)), Hr. by rewrite reverse_app. }
  exists pre, (reverse suf). split; [by rewrite <- Hm|].
  split; [done|]. split.
  { rewrite forallb_forall in *. intros x Hx. apply Hsuf.
    apply list_elem_of_In. apply list_elem_of_In in Hx.
    by rewrite elem_of_reverse in Hx. }
  split.
  - intros c Hc. apply Hhd. rewrite Hm.
    destruct (reverse m); [discriminate|]. done.
  - intros c Hc. apply Hlast. by rewrite <- last_reverse.
Qed.
End pystr_facts.

(** ** Python dicts *)

Section dict_facts.
Context {K V : Type} `{EqDecision K}.
Implicit Types (d : PyDict.dict K V) (k : K) (v : V).

Lemma elem_of_setitem k v d kv :
  kv ∈ PyDict.setitem k v d -> kv = (k, v) \/ kv ∈ d.
Proof.
  induction d as [|[k0 v0] d IH]; simpl.
  - rewrite list_elem_of_singleton. auto.
  - case_decide as Hk; rewrite !elem_of_cons.
    + subst. intros [->|?]; auto.
    + intros [->|?]; auto. destruct IH as [?|?]; auto.
Qed.

Lemma keys_setitem k v d :
  PyDict.keys (PyDict.setitem k v d)
  = if decide (k ∈ PyDict.keys d) then PyDict.keys d else PyDict.keys d ++ [k].
Proof.
  unfold PyDict.keys. induction d as [|[k0 v0] d IH]; simpl.
  - done.
  - destruct (decide (k0 = k)) as [->|Hne]; simpl.
    + rewrite decide_True; [done|]. left.
    + rewrite IH. destruct (decide (k ∈ map fst d)) as [Hin|Hin].
      * rewrite decide_True; [done|]. by right.
      * rewrite decide_False; [done|]. rewrite elem_of_cons. intros [?|?]; done.
Qed.

Lemma setitem_key k v d : k ∈ PyDict.keys (PyDict.setitem k v d).
Proof.
  rewrite keys_setitem. case_decide; [done|].
  rewrite elem_of_app, list_elem_of_singleton. auto.
Qed.

Lemma setitem_keys_mono k v d k' :
  k' ∈ PyDict.keys d -> k' ∈ PyDict.keys (PyDict.setitem k v d).
Proof.
  rewrite keys_setitem. case_decide; [done|]. rewrite elem_of_app. auto.
Qed.

Lemma setitem_NoDup k v d :
  NoDup (PyDict.keys d) -> NoDup (PyDict.keys (PyDict.setitem k v d)).
Proof.
  intros Hd. rewrite keys_setitem. case_decide as Hin; [done|].
  apply NoDup_app. split; [done|]. split; [|apply NoDup_singleton].
  intros x Hx ->%list_elem_of_singleton. done.
Qed.

Lemma get_setitem k v d : PyDict.get k (PyDict.setitem k v d) = Some v.
Proof.
  induction d as [|[k0 v0] d IH]; simpl.
  - by rewrite decide_True.
  - destruct (decide (k0 = k)) as [->|Hne]; simpl.
    + by rewrite decide_True.
    + by rewrite decide_False.
Qed.

End dict_facts.

(** ** Row Sanitizer *)

Section clean_row_facts.

Lemma startswith_nil s : startswith s [] = true.
Proof. by destruct s. Qed.

Lemma replace_BOM s : replace s [BOM] [] = filter (fun c => c ≠ BOM) s.
Proof.
  unfold replace. induction s as [|c s IH]; [done|].
  cbn [replace_from startswith]. rewrite startswith_nil, andb_true_r.
  rewrite filter_cons. cbn [length Nat.sub app].
  destruct (N.eqb_spec c BOM) as [Hc|Hc]; case_decide; try done.
  by rewrite IH.
Qed.

Lemma clean_key_spec k :
  exists t, trim_of t k /\ clean_key k = filter (fun c => c ≠ BOM) t.
Proof. exists (strip k). split; [apply strip_trim_of|apply replace_BOM]. Qed.

Lemma clean_value_spec v :
  match v with
  | PyStr s => trim_of (clean_value v) s
  | _ => clean_value v = []
  end.
Proof. destruct v; simpl; [apply strip_trim_of|done..]. Qed.

Lemma clean_from_elem row : forall d kv',
  kv' ∈ foldl assign d row ->
  kv' ∈ d \/ exists k v, (PyStr k, v) ∈ row
                        /\ kv' = (clean_key k, clean_value v).
Proof.
  induction row as [|[k v] row IH]; intros d kv' Hin; simpl in Hin; [auto|].
  apply IH in Hin as [Hin|(k1 & v1 & Hrow & ->)].
  - unfold assign in Hin; simpl in Hin. destruct k as [ks| |l].
    + apply elem_of_setitem in Hin as [->|?]; [|auto].
      right. exists ks, v. split; [left|done].
    + auto.
    + auto.
  - right. exists k1, v1. split; [by right|done].
Qed.

Lemma clean_from_keys_mono row : forall d k',
  k' ∈ PyDict.keys d -> k' ∈ PyDict.keys (foldl assign d row).
Proof.
  induction row as [|[k v] row IH]; intros d k' Hin; simpl; [done|].
  apply IH. unfold assign; simpl. destruct k; [|done..].
  by apply setitem_keys_mono.
Qed.

Lemma clean_from_keys row : forall d k v,
  (PyStr k, v) ∈ row -> clean_key k ∈ PyDict.keys (foldl assign d row).
Proof.
  induction row as [|[k0 v0] row IH]; intros d k v Hin.
  - by apply elem_of_nil in Hin.
  - apply elem_of_cons in Hin as [[= <- <-]|Hin]; simpl.
    + apply clean_from_keys_mono. apply setitem_key.
    + by eapply IH.
Qed.

Lemma clean_from_NoDup row : forall d,
  NoDup (PyDict.keys d) -> NoDup (PyDict.keys (foldl assign d row)).
Proof.
  induction row as [|[k v] row IH]; intros d Hd; simpl; [done|].
  apply IH. unfold assign; simpl. destruct k; [|done..].
  by apply setitem_NoDup.
Qed.

Lemma clean_from_str_keys row : forall d,
  foldl assign d (List.filter is_str_key row) = foldl assign d row.
Proof.
  induction row as [|[k v] row IH]; intros d; [done|].
  cbn [List.filter]. unfold is_str_key at 1. cbn [fst].
  destruct k; cbn [foldl]; apply IH.
Qed.

(** What the Row Sanitizer does, step by step.  Every item of its
    result comes from an item of the record whose key is a [str]: the
    new key is that key with its leading and trailing whitespace cut
    off first and every U+FEFF removed afterwards, the new value is
    the trimmed text, or the empty string when the value is not a
    [str].  Every [str] key of the record is represented, items with
    another key contribute nothing, the result is a mapping (keys are
    unique, the last item for a key gives its value) and holds no
    U+FEFF in a key.  On the record of the specification it returns
    exactly the single item Name -> Alice.  Nothing here says that a
    returned key is free of whitespace at its ends. *)
Theorem clean_row_sanitizes (row : PyDict.dict pyobj pyobj) :
  (forall k' v', (k', v') ∈ clean_row row ->
     exists k v t,
       (PyStr k, v) ∈ row
       /\ trim_of t k /\ k' = filter (fun c => c ≠ BOM) t
       /\ match v with
          | PyStr s => trim_of v' s
          | _ => v' = []
          end)
  /\ (forall k v, (PyStr k, v) ∈ row ->
        clean_key k ∈ PyDict.keys (clean_row row))
  /\ (forall k v, PyDict.get (clean_key k) (clean_row (row ++ [(PyStr k, v)]))
                  = Some (clean_value v))
  /\ clean_row (List.filter is_str_key row) = clean_row row
  /\ NoDup (PyDict.keys (clean_row row))
  /\ (forall k', k' ∈ PyDict.keys (clean_row row) -> BOM ∉ k')
  /\ clean_row [(PyStr (u " Name" ++ [BOM] ++ u " "), PyStr (u " Alice "))]
     = [(u "Name", u "Alice")].
Proof.
  assert (Hitems : forall k' v', (k', v') ∈ clean_row row ->
            exists k v, (PyStr k, v) ∈ row
                        /\ k' = clean_key k /\ v' = clean_value v).
  { intros k' v' Hin. apply clean_from_elem in Hin as [Hin|(k & v & ? & [= -> ->])].
    - by apply elem_of_nil in Hin.
    - eauto. }
  repeat split.
  - intros k' v' (k & v & Hrow & -> & ->)%Hitems.
    destruct (clean_key_spec k) as (t & Ht & Hk).
    exists k, v, t. repeat split; [done..|]. apply clean_value_spec.
  - intros k v Hin. by eapply clean_from_keys.
  - intros k v. unfold clean_row. rewrite foldl_app. simpl. apply get_setitem.
  - apply clean_from_str_keys.
  - apply clean_from_NoDup. constructor.
  - intros k' Hk'. apply list_elem_of_fmap in Hk' as ([k1 v1] & -> & Hin).
    apply Hitems in Hin as (k & v & _ & -> & _). simpl.
    destruct (clean_key_spec k) as (t & _ & ->).
    rewrite list_elem_of_filter. by intros [? _].
Qed.

(** C5, at a key that has U+FEFF before a space.  [strip] runs first and
    stops at the U+FEFF, which is not whitespace; removing the U+FEFF
    afterwards uncovers the space, so the returned key starts with
    whitespace.  Such a key reaches the sanitizer from an upload with
    two byte-order marks, of which the codec drops only the first; the
    placeholder [{{ Name }}] then finds no value and renders empty. *)
Theorem clean_row_space_after_BOM :
  strip ([BOM] ++ u " Name ") = [BOM] ++ u " Name"
  /\ clean_row [(PyStr ([BOM] ++ u " Name "), PyStr (u " Alice "))]
     = [(u " Name", u "Alice")]
  /\ (exists k v c,
        (k, v) ∈ clean_row [(PyStr ([BOM] ++ u " Name "), PyStr (u " Alice "))]
        /\ head k = Some c /\ isspace c = true)
  /\ Csv.DictReader (Csv.open_utf8_sig bom_space_csv)
     = ([[(PyStr ([BOM] ++ u " Name"), PyStr (u "Alice"));
          (PyStr (u "Age"), PyStr (u "30"))]], None)
  /\ (App.generate (E := jinja2) alice_template bom_space_csv leftover_fs).2
     = inr [(u "prompt_1.txt", u "Hello , you are 30")].
Proof.
  split; [by vm_compute|]. split; [by vm_compute|]. split.
  - exists (u " Name"), (u "Alice"), 32. split; [|by vm_compute].
    vm_compute. left.
  - split; by vm_compute.
Qed.

End clean_row_facts.

(** ** Template Store *)

Section store_facts.
Import Store.
Implicit Types (t : table) (r : PromptTemplate) (n : pystr).

Lemma filter_by_name_first_Some n t r :
  filter_by_name_first (Some n) t = Some r -> r ∈ t /\ name r = n.
Proof.
  simpl. intros [Hin Hn]%find_some. split; [by apply list_elem_of_In|].
  by apply bool_decide_eq_true in Hn.
Qed.

Lemma filter_by_name_first_None n t :
  filter_by_name_first (Some n) t = None <-> n ∉ names t.
Proof.
  simpl. unfold names. induction t as [|r t IH]; simpl.
  - split; [intros _; apply not_elem_of_nil|done].
  - rewrite not_elem_of_cons. case_bool_decide as Hr.
    + split; [done|]. intros [Hne _]. done.
    + rewrite IH. split; [by split|by intros [_ ?]].
Qed.

Lemma filter_by_name_first_present n t :
  n ∈ names t -> exists r, filter_by_name_first (Some n) t = Some r.
Proof.
  intros Hin. destruct (filter_by_name_first (Some n) t) as [r|] eqn:E; [eauto|].
  by apply filter_by_name_first_None in E.
Qed.

Lemma name_UPDATE_row now i ct r : name (UPDATE_row now i ct r) = name r.
Proof. unfold UPDATE_row. by repeat case_bool_decide. Qed.

Lemma id_UPDATE_row now i ct r : id (UPDATE_row now i ct r) = id r.
Proof. unfold UPDATE_row. by repeat case_bool_decide. Qed.

Lemma content_UPDATE_row now ct r : content (UPDATE_row now (id r) ct r) = ct.
Proof.
  unfold UPDATE_row. rewrite bool_decide_true by done. by case_bool_decide.
Qed.

Lemma UPDATE_row_other now i ct r : id r ≠ i -> UPDATE_row now i ct r = r.
Proof. intros. unfold UPDATE_row. by rewrite bool_decide_false. Qed.

Lemma UPDATE_row_same now i ct r : content r = ct -> UPDATE_row now i ct r = r.
Proof. intros. unfold UPDATE_row. by repeat case_bool_decide. Qed.

Lemma names_UPDATE_content now i ct t :
  names (UPDATE_content now i ct t) = names t.
Proof.
  unfold names, UPDATE_content. rewrite map_map. apply map_ext.
  intros r. apply name_UPDATE_row.
Qed.

Lemma ids_UPDATE_content now i ct t :
  map id (UPDATE_content now i ct t) = map id t.
Proof.
  unfold UPDATE_content. rewrite map_map. apply map_ext.
  intros r. apply id_UPDATE_row.
Qed.

Lemma foldr_max_ge (i : Z) (ids : list Z) :
  (i <= foldr Z.max i ids)%Z
  /\ forall j, j ∈ ids -> (j <= foldr Z.max i ids)%Z.
Proof.
  induction ids as [|k ids [IHi IHj]]; cbn [foldr].
  - split; [lia|]. intros j Hj. by apply elem_of_nil in Hj.
  - split; [lia|]. intros j [->|Hj]%elem_of_cons; [lia|].
    specialize (IHj j Hj). lia.
Qed.

Lemma next_rowid_fresh t : forall r, r ∈ t -> (id r < next_rowid t)%Z.
Proof.
  unfold next_rowid. destruct t as [|r0 t]; intros r Hr.
  - by apply elem_of_nil in Hr.
  - cbn [map]. destruct (foldr_max_ge (id r0) (map id t)) as [H0 Ht].
    apply elem_of_cons in Hr as [->|Hr]; [lia|].
    specialize (Ht (id r) (list_elem_of_fmap_2 id _ _ Hr)). lia.
Qed.

Lemma INSERT_inr now n ct t t' :
  INSERT now n ct t = inr t' ->
  (n ∉ names t)
  /\ t' = t ++ [ {| id := next_rowid t; name := n; content := ct;
                    created_at := now; updated_at := now |} ].
Proof. unfold INSERT. case_bool_decide; [done|]. by intros [= <-]. Qed.

Lemma INSERT_fresh now n ct t :
  n ∉ names t -> exists t', INSERT now n ct t = inr t'.
Proof. intros Hn. unfold INSERT. rewrite bool_decide_false by done. eauto. Qed.

Lemma INSERT_unique now n ct t t' :
  INSERT now n ct t = inr t' ->
  unique_names t -> unique_ids t -> unique_names t' /\ unique_ids t'.
Proof.
  intros [Hn ->]%INSERT_inr Hnames Hids. unfold unique_names, unique_ids, names in *.
  rewrite !map_app. simpl. split.
  - apply NoDup_app. split; [done|]. split; [|apply NoDup_singleton].
    by intros x Hx ->%list_elem_of_singleton.
  - apply NoDup_app. split; [done|]. split; [|apply NoDup_singleton].
    intros x Hx ->%list_elem_of_singleton.
    apply list_elem_of_fmap in Hx as (r & Hid & Hr).
    apply next_rowid_fresh in Hr. lia.
Qed.

Lemma flush_pending_unique now new : forall t t',
  flush_pending now new t = inr t' ->
  unique_names t -> unique_ids t -> unique_names t' /\ unique_ids t'.
Proof.
  induction new as [|[n ct] new IH]; intros t t' Hf Hn Hi; simpl in Hf.
  - by injection Hf as <-.
  - destruct (INSERT now n ct t) as [e|t1] eqn:E; [done|]. simpl in Hf.
    destruct (INSERT_unique _ _ _ _ _ E Hn Hi). by eapply IH.
Qed.

Lemma UPDATE_content_unique now i ct t :
  unique_names t -> unique_ids t ->
  unique_names (UPDATE_content now i ct t)
  /\ unique_ids (UPDATE_content now i ct t).
Proof.
  unfold unique_names, unique_ids.
  by rewrite names_UPDATE_content, ids_UPDATE_content.
Qed.

Lemma NoDup_map_filter {A B} (f : A -> B) (P : A -> Prop)
  `{!forall x, Decision (P x)} (l : list A) :
  NoDup (map f l) -> NoDup (map f (filter P l)).
Proof.
  induction l as [|x l IH]; simpl; [done|].
  intros [Hx Hl]%NoDup_cons. rewrite filter_cons. case_decide; [|auto].
  simpl. apply NoDup_cons. split; [|auto].
  intros (y & Hy & Hin)%list_elem_of_fmap. apply Hx.
  apply list_elem_of_fmap. exists y. split; [done|].
  by apply list_elem_of_filter in Hin as [_ ?].
Qed.

Lemma DELETE_unique i t :
  unique_names t -> unique_ids t ->
  unique_names (DELETE i t) /\ unique_ids (DELETE i t).
Proof.
  unfold unique_names, unique_ids, names, DELETE. intros Hn Hi.
  split; by apply NoDup_map_filter.
Qed.

Lemma seed_file_unique now existing ss f ss' :
  seed_file now existing ss f = inr ss' ->
  unique_names (rows ss) -> unique_ids (rows ss) ->
  unique_names (rows ss') /\ unique_ids (rows ss').
Proof.
  unfold seed_file. intros Hs Hn Hi. case_bool_decide.
  - destruct (flush now ss) as [e|t1] eqn:E; [done|]. simpl in Hs.
    destruct (flush_pending_unique _ _ _ _ E Hn Hi) as [Hn1 Hi1].
    destruct (List.find _ t1); [|done].
    injection Hs as <-. simpl. by apply UPDATE_content_unique.
  - by injection Hs as <-.
Qed.

Lemma seed_loop_unique now existing files : forall ss ss',
  seed_loop now existing files ss = inr ss' ->
  unique_names (rows ss) -> unique_ids (rows ss) ->
  unique_names (rows ss') /\ unique_ids (rows ss').
Proof.
  induction files as [|f files IH]; intros ss ss' Hl Hn Hi; simpl in Hl.
  - by injection Hl as <-.
  - destruct (seed_file now existing ss f) as [e|ss1] eqn:E; [done|].
    simpl in Hl. destruct (seed_file_unique _ _ _ _ _ E Hn Hi).
    by eapply IH.
Qed.

Lemma startup_unique now dir t :
  unique_names t -> unique_ids t ->
  unique_names (startup now dir t) /\ unique_ids (startup now dir t).
Proof.
  intros Hn Hi. unfold startup, seeding.
  destruct (seed_loop _ _ _ _) as [e|ss] eqn:E; simpl; [done|].
  destruct (flush now ss) as [e|t'] eqn:F; [done|].
  destruct (seed_loop_unique _ _ _ _ _ E Hn Hi).
  by eapply flush_pending_unique.
Qed.

Lemma create_unique now n ct t :
  unique_names t -> unique_ids t ->
  unique_names (create now n ct t).1 /\ unique_ids (create now n ct t).1.
Proof.
  intros Hn Hi. unfold create.
  destruct (filter_by_name_first _ t); [done|].
  destruct (INSERT now n ct t) as [e|t'] eqn:E; [done|].
  by eapply INSERT_unique.
Qed.

Lemma step_unique t a :
  unique_names t -> unique_ids t ->
  unique_names (step t a) /\ unique_ids (step t a).
Proof.
  intros Hn Hi. destruct a as [now dir|now b n c|now ch c b|ch b]; simpl.
  - by apply startup_unique.
  - unfold create_mode. destruct (_ && _); [by apply create_unique|done].
  - unfold edit_mode. destruct (filter_by_name_first ch t); [|done].
    destruct b; [by apply UPDATE_content_unique|done].
  - unfold delete_mode. destruct b; [|done].
    destruct (filter_by_name_first ch t); [by apply DELETE_unique|done].
Qed.

(** *** What a seeding run leaves in the table *)

Lemma NoDup_map_inj {A B} (f : A -> B) (l : list A) x y :
  NoDup (map f l) -> x ∈ l -> y ∈ l -> f x = f y -> x = y.
Proof.
  induction l as [|z l IH]; simpl; intros Hnd Hx Hy Hf.
  - by apply elem_of_nil in Hx.
  - apply NoDup_cons in Hnd as [Hz Hnd].
    apply elem_of_cons in Hx as [->|Hx]; apply elem_of_cons in Hy as [->|Hy];
      [done| | |by apply IH].
    + destruct Hz. rewrite Hf. by apply (list_elem_of_fmap_2 f).
    + destruct Hz. rewrite <- Hf. by apply (list_elem_of_fmap_2 f).
Qed.

Lemma filter_by_name_first_app n t1 t2 :
  filter_by_name_first (Some n) (t1 ++ t2)
  = match filter_by_name_first (Some n) t1 with
    | Some r => Some r
    | None => filter_by_name_first (Some n) t2
    end.
Proof.
  simpl. induction t1 as [|r t1 IH]; simpl; [done|]. by case_bool_decide.
Qed.

Lemma lookup_INSERT now n ct t t' n' :
  INSERT now n ct t = inr t' ->
  filter_by_name_first (Some n') t'
  = if decide (n' = n)
    then Some {| id := next_rowid t; name := n; content := ct;
                 created_at := now; updated_at := now |}
    else filter_by_name_first (Some n') t.
Proof.
  intros [Hn ->]%INSERT_inr. rewrite filter_by_name_first_app.
  case_decide as Hnn.
  - subst n'. apply filter_by_name_first_None in Hn. rewrite Hn.
    simpl. by rewrite bool_decide_true.
  - destruct (filter_by_name_first (Some n') t); [done|].
    simpl. by rewrite bool_decide_false.
Qed.

Lemma lookup_UPDATE_other now i ct t n n' :
  (forall r, r ∈ t -> id r = i -> name r = n) -> n' ≠ n ->
  filter_by_name_first (Some n') (UPDATE_content now i ct t)
  = filter_by_name_first (Some n') t.
Proof.
  intros Hi Hne. simpl. induction t as [|r t IH]; [done|].
  assert (Ht : forall r', r' ∈ t -> id r' = i -> name r' = n)
    by (intros; apply Hi; [by right|done]).
  cbn [UPDATE_content map find]. fold (UPDATE_content now i ct t).
  rewrite name_UPDATE_row.
  destruct (decide (id r = i)) as [Hr|Hr].
  - assert (name r = n) by (apply Hi; [left|done]).
    rewrite bool_decide_false by congruence. by apply IH.
  - rewrite UPDATE_row_other by done.
    destruct (bool_decide (name r = n')); [done|]. by apply IH.
Qed.

Lemma lookup_UPDATE_same now ct t n r :
  filter_by_name_first (Some n) t = Some r ->
  exists r', filter_by_name_first (Some n) (UPDATE_content now (id r) ct t)
             = Some r'
             /\ content r' = ct /\ name r' = n /\ id r' = id r.
Proof.
  simpl. induction t as [|r0 t IH]; [done|].
  cbn [UPDATE_content map find]. fold (UPDATE_content now (id r) ct t).
  rewrite name_UPDATE_row.
  destruct (decide (name r0 = n)) as [Hn0|Hn0].
  - rewrite !bool_decide_true by done. intros [= ->].
    eexists. split; [done|].
    by rewrite content_UPDATE_row, name_UPDATE_row, id_UPDATE_row.
  - rewrite !bool_decide_false by done. apply IH.
Qed.

Lemma UPDATE_content_noop now ct t r :
  unique_ids t -> r ∈ t -> content r = ct ->
  UPDATE_content now (id r) ct t = t.
Proof.
  intros Hids Hr Hc. unfold UPDATE_content.
  rewrite <- (map_id t) at 2. apply map_ext_in.
  intros r2 Hr2%list_elem_of_In.
  destruct (decide (id r2 = id r)) as [Hid|Hid].
  - assert (r2 = r) as -> by (by eapply (NoDup_map_inj id)).
    by apply UPDATE_row_same.
  - by apply UPDATE_row_other.
Qed.

Lemma flush_pending_snoc now new n ct t :
  flush_pending now (new ++ [(n, ct)]) t
  = (flush_pending now new t ≫= INSERT now n ct).
Proof.
  revert t. induction new as [|[n0 c0] new IH]; intros t; simpl.
  - by destruct (INSERT now n ct t).
  - destruct (INSERT now n0 c0 t); simpl; [done|]. apply IH.
Qed.

Lemma seed_file_spec now existing ss v f :
  flush now ss = inr v ->
  unique_names v -> unique_ids v ->
  (seed_name f.1 ∈ names v -> seed_name f.1 ∈ existing) ->
  (seed_name f.1 ∈ existing -> seed_name f.1 ∈ names v) ->
  exists ss1 v1,
    seed_file now existing ss f = inr ss1 /\ flush now ss1 = inr v1
    /\ unique_names v1 /\ unique_ids v1
    /\ (forall n', n' ∈ names v1 <-> n' ∈ names v \/ n' = seed_name f.1)
    /\ holds v1 (seed_name f.1) f.2
    /\ (forall n', n' ≠ seed_name f.1 ->
          filter_by_name_first (Some n') v1 = filter_by_name_first (Some n') v).
Proof.
  intros Hflush Hn Hi Hfresh Hold. unfold seed_file.
  set (n := seed_name f.1) in *. case_bool_decide as Hex.
  - rewrite Hflush. cbn [mbind result_bind].
    destruct (filter_by_name_first_present n v (Hold Hex)) as [r Hr].
    rewrite Hr. destruct (filter_by_name_first_Some _ _ _ Hr) as [Hrv Hrn].
    exists {| rows := UPDATE_content now (id r) f.2 v; pending := [] |},
      (UPDATE_content now (id r) f.2 v).
    split; [done|]. split; [done|].
    destruct (UPDATE_content_unique now (id r) f.2 v Hn Hi) as [Hn1 Hi1].
    split; [done|]. split; [done|]. split; [|split].
    + intros n'. rewrite names_UPDATE_content. split; [auto|].
      intros [?| ->]; [done|by apply Hold].
    + destruct (lookup_UPDATE_same now f.2 v n r Hr) as (r' & Hr' & Hc & _).
      by exists r'.
    + intros n' Hne. apply (lookup_UPDATE_other _ _ _ _ n); [|done].
      intros r2 Hr2 Hid. by rewrite (NoDup_map_inj id v r2 r Hi Hr2 Hrv Hid).
  - assert (Hnv : n ∉ names v) by (intros ?; by apply Hex, Hfresh).
    destruct (INSERT_fresh now n f.2 v Hnv) as [v1 Hv1].
    eexists _, v1. split; [done|].
    unfold flush in *. cbn [rows pending].
    rewrite flush_pending_snoc, Hflush. cbn [mbind result_bind].
    split; [done|].
    destruct (INSERT_unique _ _ _ _ _ Hv1 Hn Hi) as [Hn1 Hi1].
    split; [done|]. split; [done|]. split; [|split].
    + destruct (INSERT_inr _ _ _ _ _ Hv1) as [_ ->]. intros n'.
      unfold names. rewrite map_app, elem_of_app. simpl.
      by rewrite list_elem_of_singleton.
    + eexists. rewrite (lookup_INSERT _ _ _ _ _ n Hv1), decide_True by done.
      done.
    + intros n' Hne. by rewrite (lookup_INSERT _ _ _ _ _ n' Hv1), decide_False.
Qed.

Lemma seed_loop_spec now existing todo : forall ss v,
  flush now ss = inr v ->
  unique_names v -> unique_ids v ->
  (forall n, n ∈ existing -> n ∈ names v) ->
  NoDup (seed_names todo) ->
  (forall n, n ∈ seed_names todo -> n ∈ names v -> n ∈ existing) ->
  exists ss' v',
    seed_loop now existing todo ss = inr ss' /\ flush now ss' = inr v'
    /\ unique_names v' /\ unique_ids v'
    /\ (forall n, n ∈ names v' <-> n ∈ names v \/ n ∈ seed_names todo)
    /\ (forall f, f ∈ todo -> holds v' (seed_name f.1) f.2)
    /\ (forall n, n ∉ seed_names todo ->
          filter_by_name_first (Some n) v' = filter_by_name_first (Some n) v).
Proof.
  induction todo as [|f todo IH]; intros ss v Hflush Hn Hi Hex Hnd Hfresh.
  - exists ss, v. repeat split; try done.
    + auto.
    + intros [?|Hnil]; [done|]. by apply elem_of_nil in Hnil.
    + intros f Hf. by apply elem_of_nil in Hf.
  - cbn [seed_names map] in Hnd, Hfresh. fold (seed_names todo) in Hnd, Hfresh.
    apply NoDup_cons in Hnd as [Hf Hnd].
    destruct (seed_file_spec now existing ss v f Hflush Hn Hi)
      as (ss1 & v1 & Hstep & Hflush1 & Hn1 & Hi1 & Hnames1 & Hholds1 & Hother1).
    { apply Hfresh. left. }
    { apply Hex. }
    destruct (IH ss1 v1 Hflush1 Hn1 Hi1)
      as (ss' & v' & Hloop & Hflush' & Hn' & Hi' & Hnames' & Hholds' & Hother');
      [|done|..].
    { intros n Hin. apply Hnames1. left. by apply Hex. }
    { intros n Hin [Hv| ->]%Hnames1; [|done]. apply Hfresh; [by right|done]. }
    exists ss', v'. cbn [seed_loop]. rewrite Hstep. cbn [mbind result_bind].
    split; [done|]. split; [done|]. split; [done|]. split; [done|].
    split; [|split].
    + intros n. rewrite Hnames', Hnames1.
      cbn [seed_names map]. fold (seed_names todo). rewrite elem_of_cons.
      tauto.
    + intros f0 [->|Hf0]%elem_of_cons; [|by apply Hholds'].
      destruct Hholds1 as (r & Hr & Hc). exists r. by rewrite Hother'.
    + intros n Hnot. cbn [seed_names map] in Hnot. fold (seed_names todo) in Hnot.
      apply not_elem_of_cons in Hnot as [Hne Hnot].
      rewrite Hother' by done. by apply Hother1.
Qed.

(** A seeding run over a listing whose seed files get pairwise distinct
    names commits: names stay unique, every seed file's name holds the
    file's text whatever the table held before, and rows under other
    names are untouched. *)
Lemma seeding_spec now dir t :
  unique_names t -> unique_ids t ->
  NoDup (seed_names (fallback_files dir)) ->
  exists t',
    seeding now dir t = inr t'
    /\ unique_names t' /\ unique_ids t'
    /\ (forall n, n ∈ names t' <-> n ∈ names t \/ n ∈ seed_names (fallback_files dir))
    /\ (forall f, f ∈ fallback_files dir -> holds t' (seed_name f.1) f.2)
    /\ (forall n, n ∉ seed_names (fallback_files dir) ->
          filter_by_name_first (Some n) t' = filter_by_name_first (Some n) t).
Proof.
  intros Hn Hi Hnd.
  destruct (seed_loop_spec now (names t) (fallback_files dir)
              {| rows := t; pending := [] |} t)
    as (ss' & t' & Hloop & Hflush & H); try done.
  exists t'. split; [|exact H].
  unfold seeding. fold (fallback_files dir). rewrite Hloop. exact Hflush.
Qed.

Lemma seed_loop_fixpoint now existing todo t :
  unique_ids t ->
  (forall f, f ∈ todo -> seed_name f.1 ∈ existing /\ holds t (seed_name f.1) f.2) ->
  seed_loop now existing todo {| rows := t; pending := [] |}
  = inr {| rows := t; pending := [] |}.
Proof.
  intros Hi. induction todo as [|f todo IH]; intros Hall; [done|].
  destruct (Hall f) as [Hex (r & Hr & Hc)]; [left|].
  cbn [seed_loop]. unfold seed_file. rewrite bool_decide_true by done.
  unfold flush. cbn [rows pending flush_pending mbind result_bind].
  rewrite Hr. destruct (filter_by_name_first_Some _ _ _ Hr) as [Hrt _].
  rewrite UPDATE_content_noop by done.
  apply IH. intros f0 Hf0. apply Hall. by right.
Qed.

(** Seeding is idempotent and overriding on listings whose seed files
    get pairwise distinct names: the first run commits a table in which
    every seed name holds its file's text, and a second run over the
    same listing commits that very table again. *)
Lemma seeding_twice now1 now2 dir t :
  unique_names t -> unique_ids t ->
  NoDup (seed_names (fallback_files dir)) ->
  exists t1,
    seeding now1 dir t = inr t1 /\ seeding now2 dir t1 = inr t1
    /\ unique_names t1
    /\ (forall f, f ∈ fallback_files dir -> holds t1 (seed_name f.1) f.2).
Proof.
  intros Hn Hi Hnd.
  destruct (seeding_spec now1 dir t Hn Hi Hnd)
    as (t1 & Hrun & Hn1 & Hi1 & Hnames & Hholds & _).
  exists t1. split; [done|]. split; [|done].
  unfold seeding. fold (fallback_files dir).
  rewrite seed_loop_fixpoint; [done..|].
  intros f Hf. split; [|by apply Hholds].
  apply Hnames. right. by apply (list_elem_of_fmap_2 (fun f => seed_name f.1)).
Qed.

(** C6. Template names are unique in every table the program can reach
    from a fresh database by any sequence of seeding runs and create,
    edit and delete actions (and so are the primary keys); each further
    seeding run or action yields a table with unique names again. *)
Theorem reachable_unique_names (t : Store.table) :
  reachable t ->
  unique_names t /\ unique_ids t
  /\ (forall now dir, unique_names (startup now dir t))
  /\ (forall now b n c, unique_names (create_mode now b n c t).1)
  /\ (forall now ch c b, unique_names (edit_mode now ch c b t).1)
  /\ (forall ch b, unique_names (delete_mode ch b t).1).
Proof.
  intros [acts ->].
  assert (H : unique_names (foldl step [] acts)
              /\ unique_ids (foldl step [] acts)).
  { induction acts as [|a acts IH] using rev_ind.
    - split; constructor.
    - rewrite foldl_snoc. destruct IH. by apply step_unique. }
  destruct H as [Hn Hi]. split; [done|]. split; [done|].
  repeat split; intros.
  - by apply (step_unique _ (Seed now dir)).
  - by apply (step_unique _ (Create now b n c)).
  - by apply (step_unique _ (Edit now ch c b)).
  - by apply (step_unique _ (Delete ch b)).
Qed.

Lemma reachable_unique_names_witness :
  reachable (foldl step [] sample_session)
  /\ unique_names (foldl step [] sample_session).
Proof.
  assert (H : reachable (foldl step [] sample_session))
    by (exists sample_session; reflexivity).
  split; [exact H|]. exact (proj1 (reachable_unique_names _ H)).
Defined.

(** C3. When the name is already in the table, create reports
    "Template with this name already exists." and returns the table as
    it was: no row is changed and none is added.  The Create handler,
    which calls create only when the button is pressed and both inputs
    are non-empty, therefore never changes the table for such a name,
    shows that message whenever it does call create, and raises no
    exception. *)
Theorem create_existing_name now (button : bool) (new_name new_content : pystr)
  (t : Store.table) :
  new_name ∈ names t ->
  create now new_name new_content t
  = (t, error (u "Template with this name already exists."))
  /\ (create_mode now button new_name new_content t).1 = t
  /\ (button && truthy new_name && truthy new_content = true ->
      create_mode now button new_name new_content t
      = (t, error (u "Template with this name already exists.")))
  /\ (forall e, (create_mode now button new_name new_content t).2 ≠ Raised e).
Proof.
  intros [r Hr]%filter_by_name_first_present.
  assert (Hc : create now new_name new_content t
               = (t, error (u "Template with this name already exists."))).
  { unfold create. by rewrite Hr. }
  unfold create_mode. rewrite Hc.
  repeat split; destruct (_ && _); done.
Qed.

Lemma create_existing_name_witness :
  u "greeting" ∈ names greeting_table
  /\ create 7 (u "greeting") (u "other text") greeting_table
     = (greeting_table, error (u "Template with this name already exists.")).
Proof.
  assert (H : u "greeting" ∈ names greeting_table) by (vm_compute; left).
  split; [exact H|].
  exact (proj1 (create_existing_name 7 true (u "greeting") (u "other text")
                  greeting_table H)).
Defined.

(** C4, as the code has it.  When the chosen name is not in the table
    (or nothing is chosen), the Delete handler does nothing: it leaves
    the table as it was and shows no message, whether or not the button
    is pressed; the Edit handler leaves the table as it was. *)
Theorem missing_name_leaves_table now (choice : option pystr)
  (edited_content : pystr) (button : bool) (t : Store.table) :
  (forall n, choice = Some n -> n ∉ names t) ->
  delete_mode choice button t = (t, Quiet)
  /\ (edit_mode now choice edited_content button t).1 = t.
Proof.
  intros Hmissing.
  assert (Hq : filter_by_name_first choice t = None).
  { destruct choice as [n|]; [|done].
    apply filter_by_name_first_None. by apply Hmissing. }
  unfold delete_mode, edit_mode. rewrite Hq. by destruct button.
Qed.

Lemma missing_name_leaves_table_witness :
  (forall n, Some (u "ghost") = Some n -> n ∉ names greeting_table)
  /\ delete_mode (Some (u "ghost")) true greeting_table = (greeting_table, Quiet).
Proof.
  assert (H : forall n, Some (u "ghost") = Some n -> n ∉ names greeting_table).
  { intros n [= <-]. vm_compute. intros Hin.
    apply list_elem_of_singleton in Hin. discriminate. }
  split; [exact H|].
  exact (proj1 (missing_name_leaves_table 0 (Some (u "ghost")) [] true
                  greeting_table H)).
Defined.

(** C4, as stated, fails for delete: with the name "ghost" absent from
    the table and the button pressed, the Delete handler reports no
    failure at all. *)
Lemma delete_missing_reports_nothing :
  ~ (u "ghost" ∉ names greeting_table ->
     reports_failure (delete_mode (Some (u "ghost")) true greeting_table).2
     /\ (delete_mode (Some (u "ghost")) true greeting_table).1 = greeting_table).
Proof.
  intros H. destruct H as [Hfail _]; [|exact Hfail].
  vm_compute. intros Hin. apply list_elem_of_singleton in Hin. discriminate.
Qed.

(** On such a choice the Edit handler stops with an [AttributeError],
    raised by reading [selected_tpl.content] on [None]. *)
Remark edit_missing_raises now (choice : option pystr) (edited_content : pystr)
  (button : bool) (t : Store.table) :
  filter_by_name_first choice t = None ->
  edit_mode now choice edited_content button t = (t, Raised AttributeError).
Proof. intros H. unfold edit_mode. by rewrite H. Qed.

(** C8, at a file name that contains the extension twice: the seeder
    lists "v1.txt.bak.txt" (it ends with ".txt") and names its template
    "v1.bak"; the file name minus its extension is "v1.txt.bak". *)
Theorem seed_name_inner_extension :
  endswith (u "v1.txt.bak.txt") (u ".txt") = true
  /\ u "v1.txt.bak.txt" = u "v1.txt.bak" ++ u ".txt"
  /\ seed_name (u "v1.txt.bak.txt") = u "v1.bak"
  /\ seed_name (u "v1.txt.bak.txt") ≠ u "v1.txt.bak".
Proof. repeat split. vm_compute. discriminate. Qed.

(** C2, at a listing of two distinct files that get the same name: a
    fresh table stays empty, because the second INSERT violates the
    unique constraint and the transaction is rolled back, on the first
    run and on the second; with the name stored beforehand, both files
    update the one row and the text of the file listed first is lost. *)
Theorem seeding_colliding_files :
  let dir := [(u "a.txt", u "one"); (u "a.txt.txt", u "two")] in
  let stored := [ {| id := 1; name := u "a"; content := u "zero";
                     created_at := 0; updated_at := 0 |} ] in
  NoDup (map fst dir)
  /\ seed_names (fallback_files dir) = [u "a"; u "a"]
  /\ seeding 1 dir [] = inl IntegrityError
  /\ startup 2 dir (startup 1 dir []) = []
  /\ startup 2 dir (startup 1 dir stored)
     = [ {| id := 1; name := u "a"; content := u "two";
            created_at := 0; updated_at := 2 |} ].
Proof.
  repeat split; try by vm_compute.
  apply NoDup_cons. split; [|apply NoDup_singleton].
  intros H%list_elem_of_singleton. vm_compute in H. discriminate H.
Qed.

(** A file name without a dot before the extension gets the name one
    expects. *)
Lemma seed_name_plain_stem (stem : pystr) :
  46 ∉ stem -> seed_name (stem ++ u ".txt") = stem.
Proof.
  unfold seed_name, replace. change (u ".txt") with [46; 116; 120; 116].
  induction stem as [|c stem IH]; intros Hdot; [done|].
  apply not_elem_of_cons in Hdot as [Hc Hdot].
  cbn [app replace_from startswith].
  destruct (N.eqb_spec c 46) as [?|_]; [done|]. cbn [andb].
  by rewrite IH.
Qed.

End store_facts.

(** ** Prompt Renderer, Archiver, generation action *)

Section app_facts.
Import App.

Lemma str_of_nat_inj i j : str_of_nat i = str_of_nat j -> i = j.
Proof.
  intros H%u_inj. apply DecimalNat.Unsigned.to_uint_inj.
  apply (f_equal NilEmpty.uint_of_string) in H.
  rewrite !NilEmpty.usu in H. by injection H.
Qed.

Lemma prompt_filename_inj i j : prompt_filename i = prompt_filename j -> i = j.
Proof.
  unfold prompt_filename. intros H%app_inv_head%app_inv_tail.
  by apply str_of_nat_inj.
Qed.

(** A completed loop returns the earlier pairs followed by one pair per
    row, named by consecutive indices, and has written exactly these as
    files. *)
Lemma render_loop_inr {E : TemplateEngine} tmpl stop rows :
  forall idx prompts out out' results,
  render_loop tmpl idx rows stop prompts out = (out', inr results) ->
  exists new,
    results = prompts ++ new
    /\ new.*1 = prompt_filename <$> seq idx (length rows)
    /\ out' = write_all out new
    /\ stop = None.
Proof.
  induction rows as [|row rows IH]; intros idx prompts out out' results H;
    cbn [render_loop] in H.
  - destruct stop; [done|]. injection H as <- <-.
    exists []. by rewrite app_nil_r.
  - destruct (Template tmpl) as [e|t]; [done|].
    destruct (render t (clean_row row)) as [e|result]; [done|].
    destruct (write_file _ _ out) as [e|out1] eqn:Hw; [done|].
    apply IH in H as (new & -> & Hnames & -> & ->).
    unfold write_file in Hw.
    assert (out1 = <[prompt_filename idx := File result]> out)
      as -> by (destruct (out !! _) as [[]|]; congruence).
    eexists (_ :: new). rewrite <- app_assoc. split; [done|].
    split; [|done]. cbn. by rewrite Hnames.
Qed.

Lemma write_all_lookup files : forall out name n,
  NoDup files.*1 -> (forall e, e ∈ files -> out !! e.1 = None) ->
  write_all out files !! name = Some n
  <-> out !! name = Some n \/ exists text, n = File text /\ (name, text) ∈ files.
Proof.
  unfold write_all.
  induction files as [|[f txt] files IH]; intros out name n Hnd Hfresh.
  - simpl. split; [auto|]. intros [?|(? & _ & Hin)]; [done|].
    by apply elem_of_nil in Hin.
  - cbn [fmap list_fmap fst] in Hnd. apply NoDup_cons in Hnd as [Hf Hnd].
    cbn [foldl fst snd]. rewrite IH; [|done|].
    + rewrite lookup_insert. case_decide as Hname.
      * subst name. pose proof (Hfresh (f, txt) ltac:(left)) as Hnone.
        cbn [fst] in Hnone. rewrite Hnone. split.
        -- intros [[= <-]|(text & -> & Hin)]; right.
           ++ exists txt. split; [done|left].
           ++ exists text. split; [done|by right].
        -- intros [?|(text & -> & [[= ->]|Hin]%elem_of_cons)]; [done|auto|].
           destruct Hf. by apply (list_elem_of_fmap_2 fst _ (f, text)).
      * split.
        -- intros [?|(text & -> & Hin)]; [auto|]. right. exists text.
           split; [done|by right].
        -- intros [?|(text & -> & [[= ? ?]|Hin]%elem_of_cons)]; [auto|done|].
           right. eauto.
    + intros e He. rewrite lookup_insert_ne.
      * apply Hfresh. by right.
      * intros ->. destruct Hf. by apply (list_elem_of_fmap_2 fst).
Qed.

(** The generation action, unfolded: the output directory is rebuilt
    from nothing, whatever the file system held. *)
Lemma generate_unfold {E : TemplateEngine} tmpl csv_file s :
  generate tmpl csv_file s
  = let rd := Csv.DictReader (Csv.open_utf8_sig csv_file) in
    let lp := render_loop tmpl 1 rd.1 rd.2 [] ∅ in
    ({| data := <[u "uploaded.csv" := csv_file]> (data s);
        generated_prompts := lp.1;
        output_zip := match lp.2 with
                      | inr _ => Some (members lp.1)
                      | inl _ => output_zip s
                      end |}, lp.2).
Proof.
  unfold generate, render_prompts, read_file. cbn [data generated_prompts output_zip].
  rewrite lookup_insert_eq.
  destruct (Csv.DictReader _) as [rows stop]. cbn [fst snd].
  destruct (render_loop _ _ _ _ _ _) as [out [e|results]]; done.
Qed.

(** C1. With the template "Hello {{ Name }}, you are {{ Age }}" and any
    upload that reads as the header Name,Age and the single record
    Alice,30, the generation action (clear, stage the upload, render,
    archive) returns exactly the pair (prompt_1.txt, "Hello Alice, you
    are 30"), leaves exactly that file in the output directory, and
    writes an archive whose only member is prompt_1.txt with that
    text. *)
Theorem end_to_end_alice (csv_file : pystr) (s : filesystem) :
  Csv.reader (Csv.open_utf8_sig csv_file)
  = ([[u "Name"; u "Age"]; [u "Alice"; u "30"]], None) ->
  let run := generate (E := jinja2) alice_template csv_file s in
  run.2 = inr [(u "prompt_1.txt", alice_text)]
  /\ generated_prompts run.1 = {[ u "prompt_1.txt" := File alice_text ]}
  /\ output_zip run.1
     = Some [ {| filename := u "prompt_1.txt"; compress_type := ZIP_STORED;
                 file_data := alice_text |} ].
Proof.
  intros Hcsv. cbv zeta. rewrite generate_unfold. cbv zeta.
  unfold Csv.DictReader. rewrite Hcsv. cbn [fst snd].
  assert (Hlp : render_loop (E := jinja2) alice_template 1
                  (Csv.DictReader_row [u "Name"; u "Age"] <$>
                     List.filter (fun row => negb (bool_decide (row = [])))
                       [[u "Alice"; u "30"]]) None [] ∅
                = ({[ u "prompt_1.txt" := File alice_text ]},
                   inr [(u "prompt_1.txt", alice_text)])).
  { vm_compute. reflexivity. }
  rewrite Hlp. cbn [fst snd output_zip generated_prompts].
  split; [done|]. split; [done|].
  unfold members. by rewrite map_to_list_singleton.
Qed.

Lemma end_to_end_alice_witness :
  Csv.reader (Csv.open_utf8_sig alice_csv)
  = ([[u "Name"; u "Age"]; [u "Alice"; u "30"]], None)
  /\ (generate (E := jinja2) alice_template alice_csv leftover_fs).2
     = inr [(u "prompt_1.txt", alice_text)].
Proof.
  assert (H : Csv.reader (Csv.open_utf8_sig alice_csv)
              = ([[u "Name"; u "Age"]; [u "Alice"; u "30"]], None))
    by (vm_compute; reflexivity).
  split; [exact H|].
  exact (proj1 (end_to_end_alice alice_csv leftover_fs H)).
Defined.

(** The same upload with a byte-order mark, CR LF line ends and no final
    newline reads the same. *)
Example alice_csv_variant :
  Csv.reader (Csv.open_utf8_sig
                ([BOM] ++ u "Name,Age" ++ [13; 10] ++ u "Alice,30"))
  = ([[u "Name"; u "Age"]; [u "Alice"; u "30"]], None).
Proof. vm_compute. reflexivity. Qed.

(** C10. When the upload reads as a header followed by nothing but blank
    lines, the renderer returns the empty list and writes no file, for
    every template, and the generation action leaves an empty output
    directory and an archive without members. *)
Theorem header_only_generates_nothing {E : TemplateEngine}
  (tmpl csv_file csv_name : pystr)
  (s : filesystem) (header : list pystr) (blanks : list (list pystr)) :
  Csv.reader (Csv.open_utf8_sig csv_file) = (header :: blanks, None) ->
  Forall (fun r => r = []) blanks ->
  (data s !! csv_name = Some csv_file ->
   render_prompts tmpl csv_name s = (s, inr []))
  /\ (generate tmpl csv_file s).2 = inr []
  /\ generated_prompts (generate tmpl csv_file s).1 = ∅
  /\ output_zip (generate tmpl csv_file s).1 = Some [].
Proof.
  intros Hcsv Hblank.
  assert (Hrd : Csv.DictReader (Csv.open_utf8_sig csv_file) = ([], None)).
  { unfold Csv.DictReader. rewrite Hcsv. f_equal. clear Hcsv.
    induction Hblank as [|r blanks -> _ IH]; [done|]. exact IH. }
  split.
  - intros Hfile. unfold render_prompts, read_file. rewrite Hfile, Hrd.
    cbn [render_loop]. by destruct s.
  - rewrite generate_unfold. cbv zeta. rewrite Hrd.
    cbn [fst snd render_loop output_zip generated_prompts].
    split; [done|]. split; [done|].
    unfold members. by rewrite map_to_list_empty.
Qed.

Lemma header_only_generates_nothing_witness :
  Csv.reader (Csv.open_utf8_sig (u "Name,Age" ++ [10; 10]))
  = ([u "Name"; u "Age"] :: [[]], None)
  /\ Forall (fun r : list pystr => r = []) [[]]
  /\ output_zip (generate (E := jinja2) alice_template
                   (u "Name,Age" ++ [10; 10]) leftover_fs).1 = Some [].
Proof.
  assert (H : Csv.reader (Csv.open_utf8_sig (u "Name,Age" ++ [10; 10]))
              = ([u "Name"; u "Age"] :: [[]], None))
    by (vm_compute; reflexivity).
  assert (Hb : Forall (fun r : list pystr => r = []) [[]])
    by (constructor; [reflexivity|constructor]).
  split; [exact H|]. split; [exact Hb|].
  exact (proj2 (proj2 (proj2 (header_only_generates_nothing (E := jinja2)
    alice_template (u "Name,Age" ++ [10; 10]) (u "uploaded.csv") leftover_fs
    _ _ H Hb)))).
Defined.

(** C9, as the code has it.  The archiver replaces whatever archive was
    at the output path by a zip archive with one member per entry of
    the output directory: each regular file under its bare name with
    its text, each subdirectory as one empty member, nothing else; the
    directories are left as they were.  Every member is stored
    uncompressed. *)
Theorem zip_output_packs (s : filesystem) :
  exists entries,
    output_zip (zip_output s) = Some entries
    /\ (forall file text, generated_prompts s !! file = Some (File text) ->
          {| filename := file; compress_type := ZIP_STORED;
             file_data := text |} ∈ entries
          /\ file ≠ os_path_join OUTPUT_DIR file)
    /\ (forall e, e ∈ entries ->
          exists file n, generated_prompts s !! file = Some n
                         /\ e = ZipFile_write file n)
    /\ length entries = size (generated_prompts s)
    /\ (forall e, e ∈ entries -> compress_type e = ZIP_STORED)
    /\ (forall old,
          zip_output {| data := data s;
                        generated_prompts := generated_prompts s;
                        output_zip := old |} = zip_output s)
    /\ data (zip_output s) = data s
    /\ generated_prompts (zip_output s) = generated_prompts s.
Proof.
  exists (members (generated_prompts s)). split; [done|].
  assert (Hmem : forall e, e ∈ members (generated_prompts s) ->
            exists file n, generated_prompts s !! file = Some n
                           /\ e = ZipFile_write file n).
  { intros e ([file n] & -> & Hin)%list_elem_of_fmap.
    apply elem_of_map_to_list in Hin. by exists file, n. }
  split; [|split; [done|split; [|split; [|done]]]].
  - intros file text Hfile. split.
    + apply list_elem_of_fmap. exists (file, File text).
      split; [done|]. by apply elem_of_map_to_list.
    + intros Heq. apply (f_equal length) in Heq.
      unfold os_path_join in Heq. rewrite !length_app in Heq.
      simpl in Heq. lia.
  - unfold members. by rewrite length_fmap, length_map_to_list.
  - intros e (file & n & _ & ->)%Hmem. by destruct n.
Qed.

(** C9, as stated, fails on "compressed": the member made of a file is
    stored, not compressed. *)
Lemma zip_output_members_stored :
  let s := {| data := ∅;
              generated_prompts := {[ u "prompt_1.txt" := File (u "hi") ]};
              output_zip := None |} in
  ~ (exists entries,
       output_zip (zip_output s) = Some entries
       /\ forall e, e ∈ entries -> compress_type e ≠ ZIP_STORED).
Proof.
  cbv zeta. intros (entries & Hzip & Hcomp).
  unfold zip_output in Hzip. cbn [output_zip generated_prompts] in Hzip.
  rewrite map_to_list_singleton in Hzip. injection Hzip as <-.
  apply (Hcomp _ ltac:(left)). reflexivity.
Qed.

End app_facts.

(** * Further properties of the code *)

(** ** Create, Edit and Delete on stored names *)

Section crud_facts.
Import Store.
Implicit Types (t : table) (r : PromptTemplate) (n : pystr).

Lemma next_rowid_not_in t : next_rowid t ∉ map id t.
Proof.
  intros (r & Hid & Hr)%list_elem_of_fmap.
  apply next_rowid_fresh in Hr. lia.
Qed.

Lemma foldr_max_le (B i : Z) (ids : list Z) :
  (i <= B)%Z -> Forall (fun j => (j <= B)%Z) ids -> (foldr Z.max i ids <= B)%Z.
Proof. intros Hi. induction 1; cbn [foldr]; lia. Qed.

Lemma next_rowid_room k t :
  room_for (S k) t ->
  (- rowid_max - 1 <= next_rowid t /\ next_rowid t + Z.of_nat k <= rowid_max)%Z.
Proof.
  intros [Hk Hall]. unfold next_rowid. destruct t as [|r0 t]; cbn [map].
  - lia.
  - apply Forall_cons in Hall as [[Hlo Hhi] Hall].
    destruct (foldr_max_ge (id r0) (map id t)) as [Hge _].
    assert (foldr Z.max (id r0) (map id t) <= rowid_max - Z.of_nat (S k))%Z.
    { apply foldr_max_le; [lia|]. apply Forall_fmap.
      eapply Forall_impl; [exact Hall|]. cbn. intros r [_ ?]. lia. }
    lia.
Qed.

Lemma room_for_le k k' t : (k' <= k)%nat -> room_for k t -> room_for k' t.
Proof.
  intros Hle [Hk Hall]. split; [lia|].
  eapply Forall_impl; [exact Hall|]. cbn. intros r [? ?]. lia.
Qed.

Lemma INSERT_room k now n ct t t' :
  room_for (S k) t -> INSERT now n ct t = inr t' -> room_for k t'.
Proof.
  intros Hroom [_ ->]%INSERT_inr.
  destruct (next_rowid_room k t Hroom) as [Hlo Hhi].
  destruct (room_for_le (S k) k t ltac:(lia) Hroom) as [Hk Hall].
  split; [done|]. apply Forall_app. split; [done|].
  constructor; [|constructor]. cbn [id]. lia.
Qed.

Lemma DELETE_appended t r :
  id r = next_rowid t -> DELETE (id r) (t ++ [r]) = t.
Proof.
  intros Hid. unfold DELETE. rewrite filter_app, filter_cons, filter_nil.
  rewrite decide_False by (by intros H; apply H).
  rewrite app_nil_r. rewrite Hid.
  pose proof (next_rowid_fresh t) as Hfresh.
  generalize dependent (next_rowid t). intros i _ Hfresh.
  induction t as [|r0 t IH]; [done|].
  rewrite filter_cons, decide_True.
  - f_equal. apply IH. intros r1 Hr1. apply Hfresh. by right.
  - specialize (Hfresh r0 ltac:(left)). lia.
Qed.

Lemma Forall2_same_identity_UPDATE now i ct t :
  Forall2 same_identity t (UPDATE_content now i ct t).
Proof.
  unfold UPDATE_content. induction t as [|r t IH]; constructor; [|done].
  unfold same_identity.
  rewrite id_UPDATE_row, name_UPDATE_row. repeat split.
  unfold UPDATE_row. by repeat case_bool_decide.
Qed.

Lemma lookup_DELETE_other i n n' t :
  (forall r, r ∈ t -> id r = i -> name r = n) -> n' ≠ n ->
  filter_by_name_first (Some n') (DELETE i t)
  = filter_by_name_first (Some n') t.
Proof.
  intros Hi Hne. simpl. unfold DELETE. induction t as [|r t IH]; [done|].
  assert (IH' : find (fun r => bool_decide (name r = n'))
                  (filter (fun r => id r ≠ i) t)
                = find (fun r => bool_decide (name r = n')) t)
    by (apply IH; intros; apply Hi; [by right|done]).
  rewrite filter_cons. cbn [find]. case_decide as Hid.
  - cbn [find]. by rewrite IH'.
  - assert (name r = n) by (apply Hi; [left|]; by destruct (decide (id r = i))).
    rewrite bool_decide_false by congruence. done.
Qed.

Lemma length_DELETE t r :
  unique_ids t -> r ∈ t -> length t = S (length (DELETE (id r) t)).
Proof.
  unfold unique_ids, DELETE. induction t as [|r0 t IH]; intros Hids Hr.
  - by apply elem_of_nil in Hr.
  - cbn [map] in Hids. apply NoDup_cons in Hids as [Hr0 Hids].
    rewrite filter_cons. destruct (decide (id r0 = id r)) as [Heq|Hne].
    + rewrite decide_False by (by intros H; apply H). cbn [length]. f_equal.
      assert (Hall : forall r1, r1 ∈ t -> id r1 ≠ id r).
      { intros r1 Hr1 Hid. apply Hr0. rewrite Heq, <- Hid.
        by apply (list_elem_of_fmap_2 id). }
      clear -Hall. induction t as [|r1 t IH]; [done|].
      rewrite filter_cons, decide_True by (apply Hall; left).
      cbn [length]. f_equal. apply IH. intros r2 Hr2. apply Hall. by right.
    + rewrite decide_True by done. cbn [length]. f_equal.
      apply elem_of_cons in Hr as [->|Hr]; [done|]. by apply IH.
Qed.

(** X1.  In a table whose keys are 64-bit integers with the largest
    below 2^63-1, Create with a name that is not stored yet (button
    pressed, both inputs non-empty) appends exactly one row: it carries
    the name and the content, both timestamps are the current time, its
    key is above every stored key and at most 2^63-1; the name then
    holds the content, lookups under other names are as before, and the
    message is "Template saved.". *)
Theorem create_fresh_name now (new_name new_content : pystr) (t : table) :
  room_for 1 t ->
  new_name ∉ names t -> new_name ≠ [] -> new_content ≠ [] ->
  exists row,
    create_mode now true new_name new_content t
    = (t ++ [row], success (u "Template saved."))
    /\ name row = new_name /\ content row = new_content
    /\ created_at row = now /\ updated_at row = now
    /\ (id row ∉ map id t)
    /\ (forall r, r ∈ t -> (id r < id row)%Z)
    /\ (id row <= rowid_max)%Z
    /\ holds (t ++ [row]) new_name new_content
    /\ (forall n', n' ≠ new_name ->
          filter_by_name_first (Some n') (t ++ [row])
          = filter_by_name_first (Some n') t).
Proof.
  intros Hroom Hfresh Hn Hc.
  destruct (INSERT_fresh now new_name new_content t Hfresh) as [t' Ht'].
  destruct (INSERT_inr _ _ _ _ _ Ht') as [_ ->].
  eexists. split.
  - unfold create_mode, create.
    destruct new_name; [done|]. destruct new_content; [done|]. cbn [truthy andb].
    apply filter_by_name_first_None in Hfresh. rewrite Hfresh, Ht'. done.
  - cbn [name content created_at updated_at id].
    split; [done|]. split; [done|]. split; [done|]. split; [done|].
    split; [apply next_rowid_not_in|].
    split; [apply next_rowid_fresh|].
    split; [destruct (next_rowid_room 0 t Hroom); lia|]. split.
    + eexists. rewrite (lookup_INSERT _ _ _ _ _ new_name Ht').
      by rewrite decide_True.
    + intros n' Hne. rewrite (lookup_INSERT _ _ _ _ _ n' Ht').
      by rewrite decide_False.
Qed.

Lemma create_fresh_name_witness :
  room_for 1 greeting_table
  /\ (u "memo" ∉ names greeting_table)
  /\ exists row,
       create_mode 5 true (u "memo") (u "Dear {{ Name }}") greeting_table
       = (greeting_table ++ [row], success (u "Template saved.")).
Proof.
  assert (H : u "memo" ∉ names greeting_table).
  { vm_compute. intros Hin. apply list_elem_of_singleton in Hin. discriminate. }
  assert (Hroom : room_for 1 greeting_table).
  { unfold room_for, rowid_max, greeting_table. split; [lia|].
    constructor; [cbn [id]; lia|constructor]. }
  split; [exact Hroom|]. split; [exact H|].
  destruct (create_fresh_name 5 (u "memo") (u "Dear {{ Name }}") greeting_table
              Hroom H ltac:(discriminate) ltac:(discriminate))
    as (row & Hrow & _).
  exists row. exact Hrow.
Defined.

(** X2.  Deleting a template right after creating it gives back the table as
    it was before, row for row. *)
Theorem create_then_delete now (new_name new_content : pystr) (t : table) :
  new_name ∉ names t -> new_name ≠ [] -> new_content ≠ [] ->
  delete_mode (Some new_name) true
    (create_mode now true new_name new_content t).1
  = (t, success (u "Template deleted.")).
Proof.
  intros Hfresh Hn Hc.
  destruct (INSERT_fresh now new_name new_content t Hfresh) as [t' Ht'].
  assert (Hcreate : (create_mode now true new_name new_content t).1 = t').
  { unfold create_mode, create.
    destruct new_name; [done|]. destruct new_content; [done|]. cbn [truthy andb].
    apply filter_by_name_first_None in Hfresh. by rewrite Hfresh, Ht'. }
  rewrite Hcreate. unfold delete_mode.
  rewrite (lookup_INSERT _ _ _ _ _ new_name Ht'), decide_True by done.
  destruct (INSERT_inr _ _ _ _ _ Ht') as [_ ->].
  by rewrite DELETE_appended.
Qed.

Lemma create_then_delete_witness :
  (u "memo" ∉ names greeting_table)
  /\ delete_mode (Some (u "memo")) true
       (create_mode 5 true (u "memo") (u "Dear {{ Name }}") greeting_table).1
     = (greeting_table, success (u "Template deleted.")).
Proof.
  assert (H : u "memo" ∉ names greeting_table).
  { vm_compute. intros Hin. apply list_elem_of_singleton in Hin. discriminate. }
  split; [exact H|].
  exact (create_then_delete 5 (u "memo") (u "Dear {{ Name }}") greeting_table H
           ltac:(discriminate) ltac:(discriminate)).
Defined.

(** X3.  Edit on a stored name, with the button pressed, makes the name hold
    the edited content and shows "Template updated."; every row keeps
    its key, name and creation time, no row is added or removed, and
    lookups under other names are as before.  When the content is the
    one already stored, the table is left exactly as it was, update
    time included. *)
Theorem edit_stored_name now (n edited_content : pystr) (t : table) :
  unique_ids t -> n ∈ names t ->
  (edit_mode now (Some n) edited_content true t).2
  = success (u "Template updated.")
  /\ holds (edit_mode now (Some n) edited_content true t).1 n edited_content
  /\ Forall2 same_identity t (edit_mode now (Some n) edited_content true t).1
  /\ (forall n', n' ≠ n ->
        filter_by_name_first (Some n')
          (edit_mode now (Some n) edited_content true t).1
        = filter_by_name_first (Some n') t)
  /\ (holds t n edited_content ->
      (edit_mode now (Some n) edited_content true t).1 = t).
Proof.
  intros Hids [r Hr]%filter_by_name_first_present.
  destruct (filter_by_name_first_Some _ _ _ Hr) as [Hrt Hrn].
  unfold edit_mode. rewrite Hr. cbn [fst snd].
  split; [done|]. split; [|split; [|split]].
  - destruct (lookup_UPDATE_same now edited_content t n r Hr)
      as (r' & Hr' & Hc & _). by exists r'.
  - apply Forall2_same_identity_UPDATE.
  - intros n' Hne. apply (lookup_UPDATE_other _ _ _ _ n); [|done].
    intros r2 Hr2 Hid. by rewrite (NoDup_map_inj id t r2 r Hids Hr2 Hrt Hid).
  - intros (r0 & Hr0 & Hc). rewrite Hr in Hr0. injection Hr0 as <-.
    by apply UPDATE_content_noop.
Qed.

Lemma edit_stored_name_witness :
  unique_ids two_table /\ u "farewell" ∈ names two_table
  /\ holds (edit_mode 9 (Some (u "farewell")) (u "So long") true two_table).1
       (u "farewell") (u "So long").
Proof.
  assert (Hids : unique_ids two_table).
  { unfold unique_ids. cbn. apply NoDup_cons. split; [|apply NoDup_singleton].
    intros H%list_elem_of_singleton. discriminate H. }
  assert (Hin : u "farewell" ∈ names two_table) by (cbn; right; left).
  split; [exact Hids|]. split; [exact Hin|].
  exact (proj1 (proj2 (edit_stored_name 9 (u "farewell") (u "So long")
                         two_table Hids Hin))).
Defined.

(** X4.  Delete on a stored name, with the button pressed, removes exactly
    one row and shows "Template deleted.": the name is gone, the rows
    left are rows of the old table, and lookups under other names are
    as before. *)
Theorem delete_stored_name (n : pystr) (t : table) :
  unique_names t -> unique_ids t -> n ∈ names t ->
  (delete_mode (Some n) true t).2 = success (u "Template deleted.")
  /\ (n ∉ names (delete_mode (Some n) true t).1)
  /\ length t = S (length (delete_mode (Some n) true t).1)
  /\ (forall r, r ∈ (delete_mode (Some n) true t).1 -> r ∈ t)
  /\ (forall n', n' ≠ n ->
        filter_by_name_first (Some n') (delete_mode (Some n) true t).1
        = filter_by_name_first (Some n') t).
Proof.
  intros Hnames Hids [r Hr]%filter_by_name_first_present.
  destruct (filter_by_name_first_Some _ _ _ Hr) as [Hrt Hrn].
  unfold delete_mode. rewrite Hr. cbn [fst snd].
  split; [done|]. split; [|split; [|split]].
  - intros (r1 & Hn1 & Hr1)%list_elem_of_fmap.
    unfold DELETE in Hr1. apply list_elem_of_filter in Hr1 as [Hid Hr1].
    apply Hid. f_equal.
    apply (NoDup_map_inj name t r1 r Hnames Hr1 Hrt). congruence.
  - by apply length_DELETE.
  - intros r1 Hr1. unfold DELETE in Hr1.
    by apply list_elem_of_filter in Hr1 as [_ ?].
  - intros n' Hne. apply (lookup_DELETE_other _ n); [|done].
    intros r2 Hr2 Hid. by rewrite (NoDup_map_inj id t r2 r Hids Hr2 Hrt Hid).
Qed.

Lemma delete_stored_name_witness :
  unique_names two_table /\ unique_ids two_table
  /\ u "greeting" ∈ names two_table
  /\ u "greeting" ∉ names (delete_mode (Some (u "greeting")) true two_table).1.
Proof.
  assert (Hn : unique_names two_table).
  { unfold unique_names. cbn. apply NoDup_cons. split; [|apply NoDup_singleton].
    intros H%list_elem_of_singleton. vm_compute in H. discriminate H. }
  assert (Hids : unique_ids two_table).
  { unfold unique_ids. cbn. apply NoDup_cons. split; [|apply NoDup_singleton].
    intros H%list_elem_of_singleton. discriminate H. }
  assert (Hin : u "greeting" ∈ names two_table) by (cbn; left).
  split; [exact Hn|]. split; [exact Hids|]. split; [exact Hin|].
  exact (proj1 (proj2 (delete_stored_name (u "greeting") two_table Hn Hids Hin))).
Defined.

(** X5.  The Edit mode raises [AttributeError] exactly when the choice is not
    a stored name, button pressed or not; on an empty table it does so
    on every input.  It never changes the table then. *)
Theorem edit_mode_raises_iff now (choice : option pystr)
  (edited_content : pystr) (button : bool) (t : table) :
  ((edit_mode now choice edited_content button t).2 = Raised AttributeError
   <-> forall n, choice = Some n -> n ∉ names t)
  /\ edit_mode now choice edited_content button [] = ([], Raised AttributeError)
  /\ (forall e, (edit_mode now choice edited_content button t).2 = Raised e ->
        (edit_mode now choice edited_content button t).1 = t).
Proof.
  split; [|split].
  - unfold edit_mode. split.
    + destruct (filter_by_name_first choice t) as [r|] eqn:Hr.
      * by destruct button.
      * intros _ n ->. by apply filter_by_name_first_None.
    + intros Hmissing.
      destruct choice as [n|]; [|done].
      specialize (Hmissing n eq_refl).
      apply filter_by_name_first_None in Hmissing. by rewrite Hmissing.
  - unfold edit_mode. by destruct choice.
  - intros e. unfold edit_mode.
    destruct (filter_by_name_first choice t); [by destruct button|done].
Qed.

End crud_facts.

(** ** Seeding *)

Section seeding_facts.
Import Store.
Implicit Types (t : table) (r : PromptTemplate) (n : pystr).

Lemma Forall2_same_identity_refl t : Forall2 same_identity t t.
Proof. induction t; constructor; [by repeat split|done]. Qed.

Lemma same_identity_UPDATE_row now i ct r r' :
  same_identity r r' -> same_identity r (UPDATE_row now i ct r').
Proof.
  intros (Hi & Hn & Hc). unfold same_identity.
  rewrite id_UPDATE_row, name_UPDATE_row. repeat split; [done..|].
  rewrite Hc. unfold UPDATE_row. by repeat case_bool_decide.
Qed.

Lemma grows_refl S now t : grows S now t t.
Proof.
  exists t, []. rewrite app_nil_r.
  split; [done|]. split; [apply Forall2_same_identity_refl|constructor].
Qed.

Lemma grows_UPDATE S now t t' i ct :
  grows S now t t' -> grows S now t (UPDATE_content now i ct t').
Proof.
  intros (old & new & -> & Hold & Hnew). unfold UPDATE_content.
  exists (map (UPDATE_row now i ct) old), (map (UPDATE_row now i ct) new).
  split; [by rewrite map_app|]. split.
  - clear Hnew. induction Hold as [|r r' t old Hr _ IH]; constructor; [|done].
    by apply same_identity_UPDATE_row.
  - clear Hold. induction Hnew as [|r new [Hn Hc] _ IH]; constructor; [|done].
    rewrite name_UPDATE_row. split; [done|].
    rewrite <- Hc. unfold UPDATE_row. by repeat case_bool_decide.
Qed.

Lemma grows_INSERT S now t t' n ct t'' :
  grows S now t t' -> n ∈ S -> INSERT now n ct t' = inr t'' ->
  grows S now t t''.
Proof.
  intros (old & new & -> & Hold & Hnew) Hn [_ ->]%INSERT_inr.
  eexists old, (new ++ [_]). rewrite app_assoc. split; [done|].
  split; [done|]. apply Forall_app. split; [done|]. by repeat constructor.
Qed.

Lemma grows_flush_pending S now t new : forall t' t'',
  Forall (fun p => p.1 ∈ S) new -> grows S now t t' ->
  flush_pending now new t' = inr t'' -> grows S now t t''.
Proof.
  induction new as [|[n ct] new IH]; intros t' t'' Hall Hg Hf; simpl in Hf.
  - by injection Hf as <-.
  - apply Forall_cons in Hall as [Hn Hall].
    destruct (INSERT now n ct t') as [e|t1] eqn:E; [done|]. simpl in Hf.
    eapply IH; [done| |done]. by eapply grows_INSERT.
Qed.

Lemma grows_seed_file S now existing t ss f ss' :
  seed_name f.1 ∈ S ->
  grows S now t (rows ss) -> Forall (fun p => p.1 ∈ S) (pending ss) ->
  seed_file now existing ss f = inr ss' ->
  grows S now t (rows ss') /\ Forall (fun p => p.1 ∈ S) (pending ss').
Proof.
  intros Hf Hg Hp. unfold seed_file. case_bool_decide.
  - destruct (flush now ss) as [e|t1] eqn:E; [done|]. cbn [mbind result_bind].
    destruct (filter_by_name_first _ t1); [|done]. intros [= <-].
    cbn [rows pending]. split; [|constructor].
    apply grows_UPDATE. by eapply grows_flush_pending.
  - intros [= <-]. cbn [rows pending]. split; [done|].
    apply Forall_app. split; [done|]. by repeat constructor.
Qed.

Lemma grows_seed_loop S now existing t files : forall ss ss',
  (forall f, f ∈ files -> seed_name f.1 ∈ S) ->
  grows S now t (rows ss) -> Forall (fun p => p.1 ∈ S) (pending ss) ->
  seed_loop now existing files ss = inr ss' ->
  grows S now t (rows ss') /\ Forall (fun p => p.1 ∈ S) (pending ss').
Proof.
  induction files as [|f files IH]; intros ss ss' Hf Hg Hp Hl; simpl in Hl.
  - by injection Hl as <-.
  - destruct (seed_file now existing ss f) as [e|ss1] eqn:E; [done|].
    simpl in Hl.
    destruct (grows_seed_file S now existing t ss f ss1) as [Hg1 Hp1];
      [apply Hf; left|done..|].
    eapply IH; [|done..]. intros f0 Hf0. apply Hf. by right.
Qed.

Lemma UPDATE_content_room k now i ct t :
  room_for k t -> room_for k (UPDATE_content now i ct t).
Proof.
  intros [Hk Hall]. split; [done|]. unfold UPDATE_content.
  induction Hall as [|r t Hr _ IH]; constructor; [|done].
  by rewrite id_UPDATE_row.
Qed.

Lemma flush_pending_room now new : forall t t' j,
  room_for (length new + j) t -> flush_pending now new t = inr t' ->
  room_for j t'.
Proof.
  induction new as [|[n ct] new IH]; intros t t' j Hroom Hf; simpl in Hf.
  - by injection Hf as <-.
  - destruct (INSERT now n ct t) as [e|t1] eqn:E; [done|]. simpl in Hf.
    eapply IH; [|done]. by eapply INSERT_room.
Qed.

Lemma seed_file_room now existing ss f ss' j :
  room_for (length (pending ss) + S j) (rows ss) ->
  seed_file now existing ss f = inr ss' ->
  room_for (length (pending ss') + j) (rows ss').
Proof.
  intros Hroom. unfold seed_file. case_bool_decide.
  - destruct (flush now ss) as [e|t1] eqn:E; [done|]. cbn [mbind result_bind].
    destruct (filter_by_name_first _ t1); [|done]. intros [= <-].
    cbn [rows pending length]. apply UPDATE_content_room.
    apply (room_for_le (S j)); [lia|]. by eapply flush_pending_room.
  - intros [= <-]. cbn [rows pending]. rewrite length_app. cbn [length].
    by replace (length (pending ss) + 1 + j)%nat
      with (length (pending ss) + S j)%nat by lia.
Qed.

Lemma seed_loop_room now existing files : forall ss ss',
  room_for (length (pending ss) + length files) (rows ss) ->
  seed_loop now existing files ss = inr ss' ->
  room_for (length (pending ss')) (rows ss').
Proof.
  induction files as [|f files IH]; intros ss ss' Hroom Hl; simpl in Hl.
  - injection Hl as <-. by rewrite Nat.add_0_r in Hroom.
  - destruct (seed_file now existing ss f) as [e|ss1] eqn:E; [done|].
    simpl in Hl. eapply IH; [|done]. by eapply seed_file_room.
Qed.

(** X6.  In a table whose keys are 64-bit integers and leave room below
    2^63-1 for one new row per listed file, a seeding run never
    deletes, renames or re-dates a template: the table it leaves starts
    with the rows it found, in order and with their keys, names and
    creation times; whatever follows was created in this run under the
    name of a seed file, and every key stays at most 2^63-1.  This
    holds also when the run is aborted. *)
Theorem seeding_keeps_rows now (dir : list (pystr * pystr)) (t : table) :
  room_for (length dir) t ->
  grows (seed_names (fallback_files dir)) now t (startup now dir t)
  /\ (forall n, n ∈ names t -> n ∈ names (startup now dir t))
  /\ (length t <= length (startup now dir t))%nat
  /\ room_for 0 (startup now dir t).
Proof.
  intros Hroom.
  assert (Hfinal : room_for 0 (startup now dir t)).
  { assert (Hfiles : room_for (length (fallback_files dir)) t).
    { apply (room_for_le (length dir)); [apply filter_length_le|done]. }
    unfold startup, seeding. fold (fallback_files dir).
    destruct (seed_loop _ _ _ _) as [e|ss] eqn:Hl; cbn [mbind result_bind];
      [apply (room_for_le (length dir)); [lia|done]|].
    destruct (flush now ss) as [e|t'] eqn:Hf;
      [apply (room_for_le (length dir)); [lia|done]|].
    apply (flush_pending_room now (pending ss) (rows ss)); [|done].
    rewrite Nat.add_0_r.
    by apply (seed_loop_room now (names t) (fallback_files dir)
                {| rows := t; pending := [] |}). }
  assert (Hg : grows (seed_names (fallback_files dir)) now t (startup now dir t)).
  { unfold startup, seeding. fold (fallback_files dir).
    destruct (seed_loop _ _ _ _) as [e|ss] eqn:Hl; cbn [mbind result_bind];
      [apply grows_refl|].
    destruct (flush now ss) as [e|t'] eqn:Hf; [apply grows_refl|].
    destruct (grows_seed_loop (seed_names (fallback_files dir)) now (names t) t
                (fallback_files dir) {| rows := t; pending := [] |} ss
                ltac:(intros f Hf0;
                      by apply (list_elem_of_fmap_2 (fun f => seed_name f.1)))
                (grows_refl _ _ _) ltac:(constructor) Hl) as [Hg Hp].
    by eapply grows_flush_pending. }
  split; [exact Hg|].
  destruct Hg as (old & new & Heq & Hold & _). rewrite Heq in *.
  split; [|split; [|done]].
  - intros n (r & -> & Hr)%list_elem_of_fmap.
    apply list_elem_of_lookup in Hr as [i Hi].
    destruct (Forall2_lookup_l _ _ _ _ _ Hold Hi) as (r' & Hi' & _ & Hn & _).
    rewrite Hn. apply (list_elem_of_fmap_2 name).
    apply elem_of_app. left. by eapply list_elem_of_lookup_2.
  - rewrite length_app, (Forall2_length _ _ _ Hold). lia.
Qed.

Lemma startswith_app (s pre : pystr) : startswith (pre ++ s) pre = true.
Proof.
  induction pre as [|c pre IH]; [by destruct s|].
  cbn. by rewrite N.eqb_refl, IH.
Qed.

Lemma startswith_inv (pre : pystr) : forall s,
  startswith s pre = true -> exists rest, s = pre ++ rest.
Proof.
  induction pre as [|c pre IH]; intros s H; [by exists s|].
  destruct s as [|d s]; [done|]. cbn in H.
  apply andb_true_iff in H as [->%N.eqb_eq [rest ->]%IH]. by exists rest.
Qed.

Lemma endswith_app (stem suf : pystr) : endswith (stem ++ suf) suf = true.
Proof. unfold endswith. rewrite reverse_app. apply startswith_app. Qed.

Lemma endswith_inv (s suf : pystr) :
  endswith s suf = true -> exists stem, s = stem ++ suf.
Proof.
  unfold endswith. intros [rest Hrest]%startswith_inv.
  exists (reverse rest).
  by rewrite <- (reverse_involutive s), Hrest, reverse_app, reverse_involutive.
Qed.

(** X7.  With unique names and keys in the table and pairwise distinct names
    for the seed files, a seeding run commits and overrides: afterwards
    every seed file's name holds the file's text, whatever it held
    before; the stored names are the old ones and the seed names;
    lookups under any other name are as before. *)
Theorem seeding_overrides now (dir : list (pystr * pystr)) (t : table) :
  unique_names t -> unique_ids t ->
  NoDup (seed_names (fallback_files dir)) ->
  seeding now dir t = inr (startup now dir t)
  /\ (forall f, f ∈ fallback_files dir ->
        holds (startup now dir t) (seed_name f.1) f.2)
  /\ (forall n, n ∈ names (startup now dir t)
                <-> n ∈ names t \/ n ∈ seed_names (fallback_files dir))
  /\ (forall n, n ∉ seed_names (fallback_files dir) ->
        filter_by_name_first (Some n) (startup now dir t)
        = filter_by_name_first (Some n) t).
Proof.
  intros Hn Hi Hnd.
  destruct (seeding_spec now dir t Hn Hi Hnd)
    as (t' & Hrun & _ & _ & Hnames & Hholds & Hother).
  unfold startup. by rewrite Hrun.
Qed.

Lemma seeding_overrides_witness :
  unique_names greeting_table /\ unique_ids greeting_table
  /\ NoDup (seed_names (fallback_files sample_dir))
  /\ holds (startup 4 sample_dir greeting_table) (u "greeting") (u "Hi {{ Name }}").
Proof.
  assert (Hn : unique_names greeting_table) by apply NoDup_singleton.
  assert (Hi : unique_ids greeting_table) by apply NoDup_singleton.
  assert (Hnd : NoDup (seed_names (fallback_files sample_dir))).
  { vm_compute. apply NoDup_cons. split; [|apply NoDup_singleton].
    intros H%list_elem_of_singleton. discriminate H. }
  split; [exact Hn|]. split; [exact Hi|]. split; [exact Hnd|].
  exact (proj1 (proj2 (seeding_overrides 4 sample_dir greeting_table Hn Hi Hnd))
           (u "greeting.txt", u "Hi {{ Name }}") ltac:(vm_compute; left)).
Defined.

(** X8.  With unique names and keys in the table and pairwise distinct
    names for the seed files, seeding is idempotent: a second run over
    the same listing, at any time, leaves the very table the first run
    left, update times included. *)
Theorem seeding_idempotent now1 now2 (dir : list (pystr * pystr)) (t : table) :
  unique_names t -> unique_ids t ->
  NoDup (seed_names (fallback_files dir)) ->
  startup now2 dir (startup now1 dir t) = startup now1 dir t.
Proof.
  intros Hn Hi Hnd.
  destruct (seeding_twice now1 now2 dir t Hn Hi Hnd)
    as (t1 & Hrun1 & Hrun2 & _).
  unfold startup at 2 3. rewrite Hrun1. unfold startup. by rewrite Hrun2.
Qed.

Lemma seeding_idempotent_witness :
  unique_names greeting_table /\ unique_ids greeting_table
  /\ NoDup (seed_names (fallback_files sample_dir))
  /\ startup 8 sample_dir (startup 4 sample_dir greeting_table)
     = startup 4 sample_dir greeting_table.
Proof.
  assert (Hn : unique_names greeting_table) by apply NoDup_singleton.
  assert (Hi : unique_ids greeting_table) by apply NoDup_singleton.
  assert (Hnd : NoDup (seed_names (fallback_files sample_dir))).
  { vm_compute. apply NoDup_cons. split; [|apply NoDup_singleton].
    intros H%list_elem_of_singleton. discriminate H. }
  split; [exact Hn|]. split; [exact Hi|]. split; [exact Hnd|].
  exact (seeding_idempotent 4 8 sample_dir greeting_table Hn Hi Hnd).
Defined.

Lemma fallback_files_plain (dir : list (pystr * pystr)) :
  (forall stem ct, (stem ++ u ".txt", ct) ∈ dir -> 46 ∉ stem) ->
  NoDup dir.*1 ->
  NoDup (seed_names (fallback_files dir)).
Proof.
  unfold seed_names, fallback_files.
  induction dir as [|[file ct] dir IH]; intros Hplain Hnd; [constructor|].
  cbn [fmap list_fmap fst] in Hnd. apply NoDup_cons in Hnd as [Hfile Hnd].
  assert (IH' := IH ltac:(intros stem c ?; apply (Hplain stem c); by right) Hnd).
  cbn [List.filter fst]. destruct (endswith file (u ".txt")) eqn:Hend; [|done].
  cbn [map fst]. apply NoDup_cons. split; [|done].
  apply endswith_inv in Hend as [stem ->].
  rewrite seed_name_plain_stem by (apply (Hplain stem ct); left).
  intros ([file' ct'] & Hstem & Hin)%list_elem_of_fmap. cbn [fst] in Hstem.
  apply list_elem_of_In, filter_In in Hin as [Hin%list_elem_of_In Hend'].
  cbn [fst] in Hend'. apply endswith_inv in Hend' as [stem' ->].
  rewrite seed_name_plain_stem in Hstem
    by (apply (Hplain stem' ct'); by right).
  subst stem'. apply Hfile. by apply (list_elem_of_fmap_2 fst _ (_, ct')).
Qed.

(** X9.  When no seed file has a dot in its stem, a seeding run stores every
    seed file under its stem with its text: the listing has distinct
    file names, as every directory has, and the table unique names and
    keys. *)
Theorem seeding_plain_stems now (dir : list (pystr * pystr)) (t : table) :
  unique_names t -> unique_ids t -> NoDup dir.*1 ->
  (forall stem ct, (stem ++ u ".txt", ct) ∈ dir -> 46 ∉ stem) ->
  forall stem ct, (stem ++ u ".txt", ct) ∈ dir ->
    holds (startup now dir t) stem ct.
Proof.
  intros Hn Hi Hnd Hplain stem ct Hin.
  destruct (seeding_spec now dir t Hn Hi (fallback_files_plain dir Hplain Hnd))
    as (t' & Hrun & _ & _ & _ & Hholds & _).
  unfold startup. rewrite Hrun.
  specialize (Hholds (stem ++ u ".txt", ct)). cbn [fst snd] in Hholds.
  rewrite seed_name_plain_stem in Hholds by (by eapply Hplain).
  apply Hholds. unfold fallback_files.
  apply list_elem_of_In, filter_In. split; [by apply list_elem_of_In|].
  apply endswith_app.
Qed.

Lemma seeding_plain_stems_witness :
  unique_names greeting_table /\ unique_ids greeting_table
  /\ NoDup [(u "memo" ++ u ".txt", u "Dear {{ Name }}")].*1
  /\ holds (startup 4 [(u "memo" ++ u ".txt", u "Dear {{ Name }}")] greeting_table)
       (u "memo") (u "Dear {{ Name }}").
Proof.
  assert (Hn : unique_names greeting_table) by apply NoDup_singleton.
  assert (Hi : unique_ids greeting_table) by apply NoDup_singleton.
  assert (Hnd : NoDup [(u "memo" ++ u ".txt", u "Dear {{ Name }}")].*1)
    by apply NoDup_singleton.
  assert (Hplain : forall stem ct,
            (stem ++ u ".txt", ct) ∈ [(u "memo" ++ u ".txt", u "Dear {{ Name }}")] ->
            46 ∉ stem).
  { intros stem ct Hstem%list_elem_of_singleton.
    apply (f_equal fst) in Hstem. cbn [fst] in Hstem.
    apply app_inv_tail in Hstem. subst stem. vm_compute.
    intros Hin. repeat (apply elem_of_cons in Hin as [Hin|Hin]; [discriminate Hin|]).
    by apply elem_of_nil in Hin. }
  split; [exact Hn|]. split; [exact Hi|]. split; [exact Hnd|].
  exact (seeding_plain_stems 4 _ greeting_table Hn Hi Hnd Hplain
           (u "memo") (u "Dear {{ Name }}") ltac:(left)).
Defined.

End seeding_facts.

(** ** Rendering, archiving and the main panel *)

Section pipeline_facts.
Import App.
Context {E : TemplateEngine}.

(** The text of every returned pair is the rendering of its row. *)
Lemma render_loop_texts tmpl stop rows : forall idx prompts out out' results,
  render_loop tmpl idx rows stop prompts out = (out', inr results) ->
  exists new,
    results = prompts ++ new
    /\ Forall2 (fun row res =>
                  exists t, Template tmpl = inr t
                            /\ render t (clean_row row) = inr res.2) rows new.
Proof.
  induction rows as [|row rows IH]; intros idx prompts out out' results H;
    cbn [render_loop] in H.
  - destruct stop; [done|]. injection H as <- <-.
    exists []. by rewrite app_nil_r.
  - destruct (Template tmpl) as [e|t] eqn:Ht; [done|].
    destruct (render t (clean_row row)) as [e|result] eqn:Hr; [done|].
    destruct (write_file _ _ out) as [e|out1]; [done|].
    apply IH in H as (new & -> & Hall).
    eexists (_ :: new). rewrite <- app_assoc. split; [done|].
    constructor; [|done]. by exists t.
Qed.

(** Whatever the outcome, the loop adds to the directory only regular
    files named by indices of its rows. *)
Lemma render_loop_entries tmpl stop rows : forall idx prompts out out' r,
  render_loop tmpl idx rows stop prompts out = (out', r) ->
  forall name n, out' !! name = Some n ->
    out !! name = Some n
    \/ exists i text, (idx <= i < idx + length rows)%nat
                      /\ name = prompt_filename i /\ n = File text.
Proof.
  induction rows as [|row rows IH]; intros idx prompts out out' r H name n Hn;
    cbn [render_loop] in H.
  - left. by destruct stop; injection H as <- <-.
  - destruct (Template tmpl) as [e|t]; [injection H as <- <-; by left|].
    destruct (render t (clean_row row)) as [e|result];
      [injection H as <- <-; by left|].
    destruct (write_file _ _ out) as [e|out1] eqn:Hw;
      [injection H as <- <-; by left|].
    unfold write_file in Hw.
    assert (out1 = <[prompt_filename idx := File result]> out)
      as -> by (destruct (out !! _) as [[]|]; congruence).
    destruct (IH _ _ _ _ _ H name n Hn) as [Hin|(i & text & Hi & -> & ->)].
    + rewrite lookup_insert in Hin. case_decide as Hname.
      * injection Hin as <-. right. exists idx, result. cbn [length].
        split; [lia|done].
      * by left.
    + right. exists i, text. cbn [length]. split; [lia|done].
Qed.

(** In a directory without subdirectories the loop completes as soon as
    the template compiles, every row renders and the reader does not
    raise: writing never fails. *)
Lemma render_loop_completes tmpl t rows : forall idx prompts out,
  Template tmpl = inr t ->
  Forall (fun row => exists text, render t (clean_row row) = inr text) rows ->
  (forall name, out !! name ≠ Some Dir) ->
  exists out' results,
    render_loop tmpl idx rows None prompts out = (out', inr results).
Proof.
  intros idx prompts out Ht Hall. revert idx prompts out.
  induction Hall as [|row rows [text Hr] _ IH]; intros idx prompts out Hnodir;
    cbn [render_loop]; [by eauto|].
  rewrite Ht, Hr. unfold write_file.
  destruct (out !! prompt_filename idx) as [[txt|]|] eqn:Hout;
    [|by destruct (Hnodir _ Hout)|]; apply IH; intros name;
    rewrite lookup_insert; case_decide; done || apply Hnodir.
Qed.

(** X10.  A completed generation run returns one pair per row the reader
    yields, in order: the i-th is named prompt_i.txt, counting from 1,
    and its text is the rendering of the sanitized i-th row; the reader
    has not raised.  Conversely the run completes whenever the reader
    does not raise, the template compiles and every sanitized row
    renders. *)
Theorem generate_results (tmpl csv_file : pystr) (s : filesystem) :
  let rd := Csv.DictReader (Csv.open_utf8_sig csv_file) in
  (forall results, (generate tmpl csv_file s).2 = inr results ->
     rd.2 = None
     /\ results.*1 = prompt_filename <$> seq 1 (length rd.1)
     /\ Forall2 (fun row res =>
                   exists t, Template tmpl = inr t
                             /\ render t (clean_row row) = inr res.2)
          rd.1 results)
  /\ (forall t, rd.2 = None -> Template tmpl = inr t ->
        Forall (fun row => exists text, render t (clean_row row) = inr text) rd.1 ->
        exists results, (generate tmpl csv_file s).2 = inr results).
Proof.
  cbv zeta. rewrite generate_unfold. cbv zeta. cbn [fst snd]. split.
  - intros results Hres.
    destruct (render_loop _ _ _ _ _ _) as [out r] eqn:Hlp.
    cbn [snd] in Hres. subst r.
    destruct (render_loop_inr _ _ _ _ _ _ _ _ Hlp) as (new & -> & Hnames & _ & Hstop).
    destruct (render_loop_texts _ _ _ _ _ _ _ _ Hlp) as (new' & Hnew' & Htexts).
    cbn [app] in *. subst new'. done.
  - intros t Hstop Ht Hall. rewrite Hstop.
    destruct (render_loop_completes tmpl t _ 1 [] ∅ Ht Hall) as (out' & results & ->).
    + intros name. by rewrite lookup_empty.
    + by exists results.
Qed.

(** X11.  After a generation run, completed or not, the output directory
    holds nothing but regular files named prompt_i.txt with i between 1
    and the number of rows: earlier outputs and subdirectories are gone.
    The upload is staged under uploaded.csv and other staged files are
    kept.  When the run raises, the archive is left as it was. *)
Theorem generate_leaves_own_files (tmpl csv_file : pystr) (s : filesystem) :
  let rows := (Csv.DictReader (Csv.open_utf8_sig csv_file)).1 in
  (forall name n, generated_prompts (generate tmpl csv_file s).1 !! name = Some n ->
     exists i text, (1 <= i <= length rows)%nat
                    /\ name = prompt_filename i /\ n = File text)
  /\ data (generate tmpl csv_file s).1 = <[u "uploaded.csv" := csv_file]> (data s)
  /\ (forall e, (generate tmpl csv_file s).2 = inl e ->
        output_zip (generate tmpl csv_file s).1 = output_zip s).
Proof.
  cbv zeta. rewrite generate_unfold. cbv zeta.
  cbn [fst snd generated_prompts data output_zip].
  destruct (render_loop _ _ _ _ _ _) as [out r] eqn:Hlp. cbn [fst snd].
  split; [|split; [done|by intros e ->]].
  intros name n Hn.
  destruct (render_loop_entries _ _ _ _ _ _ _ _ Hlp name n Hn)
    as [Hin|(i & text & Hi & -> & ->)].
  - by rewrite lookup_empty in Hin.
  - exists i, text. split; [lia|done].
Qed.

(** X12.  A template that does not compile makes the run raise at the first
    row, after the old outputs were deleted: the output directory is
    left empty and the archive untouched. *)
Theorem generate_bad_template (tmpl csv_file : pystr) (s : filesystem) (e : exn) :
  Template tmpl = inl e ->
  (Csv.DictReader (Csv.open_utf8_sig csv_file)).1 ≠ [] ->
  (generate tmpl csv_file s).2 = inl e
  /\ generated_prompts (generate tmpl csv_file s).1 = ∅
  /\ output_zip (generate tmpl csv_file s).1 = output_zip s.
Proof.
  intros Ht Hrows. rewrite generate_unfold. cbv zeta.
  destruct (Csv.DictReader _) as [[|row rows] stop]; [done|].
  cbn [fst snd render_loop]. rewrite Ht. done.
Qed.

(** X13.  On completion the archive holds exactly the returned prompts: its
    members, read as (name, text) pairs, are the returned pairs up to
    order, and each is stored. *)
Theorem archive_holds_results (tmpl csv_file : pystr) (s : filesystem)
  (results : list (pystr * pystr)) :
  (generate tmpl csv_file s).2 = inr results ->
  exists entries,
    output_zip (generate tmpl csv_file s).1 = Some entries
    /\ member_pair <$> entries ≡ₚ results
    /\ Forall (fun e => compress_type e = ZIP_STORED) entries.
Proof.
  rewrite generate_unfold. cbv zeta. cbn [fst snd output_zip].
  destruct (render_loop _ _ _ _ _ _) as [out r] eqn:Hlp. cbn [fst snd].
  intros ->. apply render_loop_inr in Hlp as (new & -> & Hnames & -> & _).
  cbn [app]. eexists. split; [done|].
  assert (Hnd : NoDup new.*1).
  { rewrite Hnames. apply NoDup_fmap_2_strong; [|apply NoDup_seq].
    intros ? ? _ _. apply prompt_filename_inj. }
  set (l := (fun p : pystr * pystr => (p.1, File p.2)) <$> new).
  assert (Hl1 : l.*1 = new.*1).
  { unfold l. rewrite <- list_fmap_compose. by apply list_fmap_ext. }
  assert (Hmap : write_all ∅ new = list_to_map l).
  { apply map_eq. intros name. apply option_eq. intros n.
    rewrite write_all_lookup; [|done|by intros].
    rewrite lookup_empty, <- elem_of_list_to_map by (by rewrite Hl1).
    unfold l. rewrite list_elem_of_fmap. split.
    - intros [?|(text & -> & Hin)]; [done|]. by exists (name, text).
    - intros ([name' text] & [= -> ->] & Hin). right. by exists text. }
  rewrite Hmap. split.
  - unfold members. rewrite map_to_list_to_map by (by rewrite Hl1).
    unfold l. rewrite <- !list_fmap_compose.
    rewrite (list_fmap_ext _ id); [by rewrite list_fmap_id|].
    by intros i [name text] _.
  - apply Forall_forall. intros e ([name n] & -> & _)%list_elem_of_fmap.
    by destruct n.
Qed.

(** X14.  When no entry name of the output directory contains a slash, as no
    file name does, the members of the archive have pairwise distinct
    names, subdirectories included. *)
Theorem zip_output_distinct_names (s : filesystem) :
  (forall name n, generated_prompts s !! name = Some n -> 47 ∉ name) ->
  exists entries,
    output_zip (zip_output s) = Some entries /\ NoDup (filename <$> entries).
Proof.
  intros Hslash. eexists. split; [done|].
  rewrite <- list_fmap_compose.
  apply NoDup_fmap_2_strong; [|apply NoDup_map_to_list].
  intros [name1 n1] [name2 n2] H1%elem_of_map_to_list H2%elem_of_map_to_list Heq.
  cbn [compose fst snd] in Heq.
  assert (Hlast : forall name : pystr, 47 ∈ name ++ u "/")
    by (intros name; apply elem_of_app; right; left).
  destruct n1, n2; cbn [ZipFile_write filename] in Heq.
  - subst name2. rewrite H1 in H2. by injection H2 as <-.
  - destruct (Hslash _ _ H1). rewrite Heq. apply Hlast.
  - destruct (Hslash _ _ H2). rewrite <- Heq. apply Hlast.
  - by apply app_inv_tail in Heq as ->.
Qed.

End pipeline_facts.

Lemma generate_bad_template_witness :
  Template (TemplateEngine := jinja2) broken_template = inl TemplateSyntaxError
  /\ (Csv.DictReader (Csv.open_utf8_sig alice_csv)).1 ≠ []
  /\ App.generated_prompts
       (App.generate (E := jinja2) broken_template alice_csv leftover_fs).1 = ∅.
Proof.
  assert (Ht : Template (TemplateEngine := jinja2) broken_template
               = inl TemplateSyntaxError) by (vm_compute; reflexivity).
  assert (Hrows : (Csv.DictReader (Csv.open_utf8_sig alice_csv)).1 ≠ [])
    by (vm_compute; discriminate).
  split; [exact Ht|]. split; [exact Hrows|].
  exact (proj1 (proj2 (generate_bad_template broken_template alice_csv
                         leftover_fs TemplateSyntaxError Ht Hrows))).
Defined.

Lemma archive_holds_results_witness :
  (App.generate (E := jinja2) alice_template alice_csv leftover_fs).2
  = inr [(u "prompt_1.txt", alice_text)]
  /\ exists entries,
       App.output_zip
         (App.generate (E := jinja2) alice_template alice_csv leftover_fs).1
       = Some entries
       /\ member_pair <$> entries ≡ₚ [(u "prompt_1.txt", alice_text)].
Proof.
  assert (H : (App.generate (E := jinja2) alice_template alice_csv leftover_fs).2
              = inr [(u "prompt_1.txt", alice_text)])
    by (vm_compute; reflexivity).
  split; [exact H|].
  destruct (archive_holds_results alice_template alice_csv leftover_fs _ H)
    as (entries & Hzip & Hperm & _).
  exists entries. split; [exact Hzip|exact Hperm].
Defined.

Lemma zip_output_distinct_names_witness :
  (forall name n, App.generated_prompts leftover_fs !! name = Some n -> 47 ∉ name)
  /\ exists entries,
       App.output_zip (App.zip_output leftover_fs) = Some entries
       /\ NoDup (App.filename <$> entries).
Proof.
  assert (H : forall name n,
            App.generated_prompts leftover_fs !! name = Some n -> 47 ∉ name).
  { intros name n Hn. cbn [leftover_fs App.generated_prompts] in Hn.
    apply lookup_insert_Some in Hn as [[<- _]|[_ Hn]].
    - refine (bool_decide_unpack _ _). vm_compute. exact I.
    - apply lookup_singleton_Some in Hn as [<- _].
      refine (bool_decide_unpack _ _). vm_compute. exact I. }
  split; [exact H|]. exact (zip_output_distinct_names leftover_fs H).
Defined.

Section panel_facts.
Import App Ui.
Context {E : TemplateEngine}.

(** X15.  After a completed run started from the panel, the session holds the
    returned pairs, the message counts them, and the preview lists the
    first ten of them (all, when there are fewer), named prompt_1.txt
    onwards; every previewed pair is a file of the output directory
    with that text. *)
Theorem preview_after_run (selected_name : option pystr) (buffer : pystr)
  (t : Store.table) (st : session) (tpl : Store.PromptTemplate)
  (res : list (pystr * pystr)) :
  Store.filter_by_name_first selected_name t = Some tpl ->
  (generate (Store.content tpl) buffer (files st)).2 = inr res ->
  (generate_button selected_name (Some buffer) true t st).2
  = inr [u "Ready to generate prompts"; generated_message (length res)]
  /\ results (generate_button selected_name (Some buffer) true t st).1 = Some res
  /\ (preview (generate_button selected_name (Some buffer) true t st).1).*1
     = prompt_filename <$> seq 1 (10 `min` length res)
  /\ (forall p,
        p ∈ preview (generate_button selected_name (Some buffer) true t st).1 ->
        generated_prompts
          (files (generate_button selected_name (Some buffer) true t st).1)
          !! p.1 = Some (File p.2)).
Proof.
  intros Htpl Hres. unfold generate_button. rewrite Htpl.
  destruct (generate _ _ _) as [s' r] eqn:Hgen. cbn [snd] in Hres. subst r.
  cbn [fst snd results files]. unfold preview. cbn [results].
  rewrite generate_unfold in Hgen. cbv zeta in Hgen.
  destruct (render_loop _ _ _ _ _ _) as [out r] eqn:Hlp.
  cbn [fst snd] in Hgen. injection Hgen as <- ->.
  cbn [generated_prompts].
  apply render_loop_inr in Hlp as (new & -> & Hnames & -> & _). cbn [app].
  assert (Hnd : NoDup new.*1).
  { rewrite Hnames. apply NoDup_fmap_2_strong; [|apply NoDup_seq].
    intros ? ? _ _. apply prompt_filename_inj. }
  assert (Hlen : length new = length (Csv.DictReader (Csv.open_utf8_sig buffer)).1).
  { rewrite <- (length_fmap fst new), Hnames.
    by rewrite length_fmap, length_seq. }
  split; [done|]. split; [done|]. split.
  - rewrite fmap_take, Hnames, <- fmap_take, take_seq. by rewrite Hlen.
  - intros [name text] Hp. cbn [fst snd].
    apply (subseteq_take 10 new) in Hp.
    apply write_all_lookup; [done|by intros|]. right. by exists text.
Qed.

(** X16.  The panel starts no run, and leaves the session as it was, unless a
    stored template is selected, a file is uploaded and the button is
    pressed; with an empty table it never starts one.  A run that
    raises leaves the stored results, hence the preview, as they
    were. *)
Theorem generate_button_idle (selected_name csv_file : option pystr)
  (button : bool) (t : Store.table) (st : session) :
  (Store.filter_by_name_first selected_name t = None ->
   generate_button selected_name csv_file button t st = (st, inr []))
  /\ (csv_file = None ->
      generate_button selected_name csv_file button t st = (st, inr []))
  /\ (button = false ->
      (generate_button selected_name csv_file button t st).1 = st)
  /\ (t = [] ->
      generate_button selected_name csv_file button t st = (st, inr []))
  /\ (forall e,
        (generate_button selected_name csv_file button t st).2 = inl e ->
        results (generate_button selected_name csv_file button t st).1
        = results st
        /\ preview (generate_button selected_name csv_file button t st).1
           = preview st).
Proof.
  unfold generate_button. repeat split.
  - by intros ->.
  - intros ->. by destruct (Store.filter_by_name_first _ _).
  - intros ->. by destruct (Store.filter_by_name_first _ _), csv_file.
  - intros ->. by destruct selected_name.
  - destruct (Store.filter_by_name_first _ _); [|done].
    destruct csv_file; [|done]. destruct button; [|done].
    by destruct (generate _ _ _) as [s' [e'|res]].
  - destruct (Store.filter_by_name_first _ _); [|done].
    destruct csv_file; [|done]. destruct button; [|done].
    by destruct (generate _ _ _) as [s' [e'|res]].
Qed.

End panel_facts.

Lemma preview_after_run_witness :
  Store.filter_by_name_first (Some (u "greeting")) greeting_table
  = Some {| Store.id := 1; Store.name := u "greeting";
            Store.content := u "Hello {{ Name }}";
            Store.created_at := 1; Store.updated_at := 1 |}
  /\ (App.generate (E := jinja2) (u "Hello {{ Name }}") alice_csv leftover_fs).2
     = inr [(u "prompt_1.txt", u "Hello Alice")]
  /\ Ui.results
       (Ui.generate_button (E := jinja2) (Some (u "greeting")) (Some alice_csv)
          true greeting_table
          {| Ui.files := leftover_fs; Ui.results := None |}).1
     = Some [(u "prompt_1.txt", u "Hello Alice")].
Proof.
  assert (Ht : Store.filter_by_name_first (Some (u "greeting")) greeting_table
               = Some {| Store.id := 1; Store.name := u "greeting";
                         Store.content := u "Hello {{ Name }}";
                         Store.created_at := 1; Store.updated_at := 1 |})
    by reflexivity.
  assert (Hr : (App.generate (E := jinja2) (u "Hello {{ Name }}") alice_csv
                  leftover_fs).2 = inr [(u "prompt_1.txt", u "Hello Alice")])
    by (vm_compute; reflexivity).
  split; [exact Ht|]. split; [exact Hr|].
  exact (proj1 (proj2 (preview_after_run (E := jinja2) (Some (u "greeting"))
    alice_csv greeting_table {| Ui.files := leftover_fs; Ui.results := None |}
    _ _ Ht Hr))).
Defined.

(** ** Row Sanitizer, further *)

Section sanitizer_facts.

Lemma setitem_fresh {K V : Type} `{EqDecision K} (k : K) (v : V)
  (d : PyDict.dict K V) :
  k ∉ PyDict.keys d -> PyDict.setitem k v d = d ++ [(k, v)].
Proof.
  unfold PyDict.keys. induction d as [|[k0 v0] d IH]; intros Hk; [done|].
  cbn [map fst] in Hk. apply not_elem_of_cons in Hk as [Hne Hk].
  cbn [PyDict.setitem]. rewrite decide_False by done. by rewrite IH.
Qed.

Lemma assign_distinct row : forall d,
  NoDup (PyDict.keys d ++ (clean_key <$> (str_items row).*1)) ->
  foldl assign d row
  = d ++ ((fun kv => (clean_key kv.1, clean_value kv.2)) <$> str_items row).
Proof.
  induction row as [|[k v] row IH]; intros d Hnd; cbn [foldl].
  - unfold str_items. cbn. by rewrite app_nil_r.
  - unfold assign at 2. cbn [fst snd]. destruct k as [ks| |l]; try by apply IH.
    assert (Hitems : str_items ((PyStr ks, v) :: row) = (ks, v) :: str_items row)
      by done.
    rewrite Hitems in *. cbn [fmap list_fmap fst snd] in *.
    apply NoDup_app in Hnd as (Hd & Hdisj & Hrest).
    rewrite setitem_fresh by (intros Hin; apply (Hdisj _ Hin); left).
    apply NoDup_cons in Hrest as [Hks Hrest].
    rewrite IH.
    + by rewrite <- app_assoc.
    + unfold PyDict.keys. rewrite map_app. cbn [map fst].
      apply NoDup_app. split; [|split; [|done]].
      * apply NoDup_app. split; [done|]. split; [|apply NoDup_singleton].
        intros x Hx ->%list_elem_of_singleton. apply (Hdisj _ Hx). left.
      * intros x [Hx| ->%list_elem_of_singleton]%elem_of_app Hin; [|done].
        apply (Hdisj _ Hx). by right.
Qed.

(** X17.  When no two [str] keys of a record become equal by sanitizing, the
    sanitizer keeps every [str]-keyed item, in the record's order: the
    result is the list of those items with key and value sanitized. *)
Theorem clean_row_distinct_keys (row : PyDict.dict pyobj pyobj) :
  NoDup (clean_key <$> (str_items row).*1) ->
  clean_row row
  = (fun kv => (clean_key kv.1, clean_value kv.2)) <$> str_items row.
Proof. intros Hnd. unfold clean_row. by rewrite assign_distinct. Qed.

Lemma clean_row_distinct_keys_witness :
  NoDup (clean_key <$> (str_items [(PyStr (u " Name "), PyStr (u "Alice "));
                                    (PyNone, PyList [u "x"]);
                                    (PyStr (u "Age"), PyNone)]).*1)
  /\ clean_row [(PyStr (u " Name "), PyStr (u "Alice "));
                (PyNone, PyList [u "x"]);
                (PyStr (u "Age"), PyNone)]
     = [(u "Name", u "Alice"); (u "Age", [])].
Proof.
  assert (H : NoDup (clean_key <$>
                       (str_items [(PyStr (u " Name "), PyStr (u "Alice "));
                                   (PyNone, PyList [u "x"]);
                                   (PyStr (u "Age"), PyNone)]).*1)).
  { vm_compute. apply NoDup_cons. split; [|apply NoDup_singleton].
    intros Hin%list_elem_of_singleton. discriminate Hin. }
  split; [exact H|]. exact (clean_row_distinct_keys _ H).
Defined.

Lemma lstrip_fixed (t : pystr) :
  (forall c, head t = Some c -> isspace c = false) -> lstrip t = t.
Proof. destruct t as [|c t]; [done|]. intros H. cbn. by rewrite (H c). Qed.

Lemma strip_fixed (t : pystr) :
  (forall c, head t = Some c -> isspace c = false) ->
  (forall c, last t = Some c -> isspace c = false) ->
  strip t = t.
Proof.
  intros Hh Hl. unfold strip, rstrip. rewrite (lstrip_fixed t Hh).
  rewrite lstrip_fixed; [apply reverse_involutive|].
  intros c. rewrite head_reverse. apply Hl.
Qed.

Lemma filter_all {A} (P : A -> Prop) `{!forall x, Decision (P x)} (l : list A) :
  Forall P l -> filter P l = l.
Proof.
  induction 1 as [|x l Hx _ IH]; [done|].
  by rewrite filter_cons, decide_True, IH.
Qed.

(** X18.  Sanitizing is stable on values: a sanitized value, sanitized again,
    is itself.  It is stable on keys that hold no U+FEFF, where the
    sanitized key is the stripped key and neither starts nor ends with
    whitespace. *)
Theorem sanitizing_stable (k : pystr) (v : pyobj) :
  clean_value (PyStr (clean_value v)) = clean_value v
  /\ (BOM ∉ k ->
      clean_key k = strip k
      /\ clean_key (clean_key k) = clean_key k
      /\ (forall c, head (clean_key k) = Some c -> isspace c = false)
      /\ (forall c, last (clean_key k) = Some c -> isspace c = false)).
Proof.
  assert (Hstrip : forall s, strip (strip s) = strip s).
  { intros s. destruct (strip_trim_of s) as (pre & suf & _ & _ & _ & Hh & Hl).
    by apply strip_fixed. }
  split.
  - destruct v; cbn [clean_value]; [apply Hstrip|done..].
  - intros Hbom.
    destruct (strip_trim_of k) as (pre & suf & Hk & _ & _ & Hh & Hl).
    assert (Hnb : BOM ∉ strip k).
    { intros Hin. apply Hbom. rewrite Hk, !elem_of_app. auto. }
    assert (Hck : clean_key k = strip k).
    { unfold clean_key. rewrite replace_BOM. apply filter_all.
      apply Forall_forall. by intros x Hx ->. }
    rewrite !Hck. split; [done|]. split; [|done].
    unfold clean_key. rewrite Hstrip, replace_BOM. apply filter_all.
    apply Forall_forall. by intros x Hx ->.
Qed.

End sanitizer_facts.

Lemma seeding_keeps_rows_witness :
  room_for (length sample_dir) greeting_table
  /\ (forall n, n ∈ Store.names greeting_table ->
        n ∈ Store.names (Store.startup 4 sample_dir greeting_table)).
Proof.
  assert (Hroom : room_for (length sample_dir) greeting_table).
  { unfold room_for, rowid_max, greeting_table. cbn [length sample_dir].
    split; [lia|]. constructor; [cbn [Store.id]; lia|constructor]. }
  split; [exact Hroom|].
  exact (proj1 (proj2 (seeding_keeps_rows 4 sample_dir greeting_table Hroom))).
Defined.

(** ** Successive generation runs *)

Section successive_runs.
Import App.
Context {E : TemplateEngine}.

(** The members made of a directory of freshly written files are these
    files. *)
Lemma members_write_all (new : list (pystr * pystr)) :
  NoDup new.*1 -> member_pair <$> members (write_all ∅ new) ≡ₚ new.
Proof.
  intros Hnd.
  set (l := (fun p : pystr * pystr => (p.1, File p.2)) <$> new).
  assert (Hl1 : l.*1 = new.*1).
  { unfold l. rewrite <- list_fmap_compose. by apply list_fmap_ext. }
  assert (Hmap : write_all ∅ new = list_to_map l).
  { apply map_eq. intros name. apply option_eq. intros n.
    rewrite write_all_lookup; [|done|by intros].
    rewrite lookup_empty, <- elem_of_list_to_map by (by rewrite Hl1).
    unfold l. rewrite list_elem_of_fmap. split.
    - intros [?|(text & -> & Hin)]; [done|]. by exists (name, text).
    - intros ([name' text] & [= -> ->] & Hin). right. by exists text. }
  rewrite Hmap. unfold members.
  rewrite map_to_list_to_map by (by rewrite Hl1).
  unfold l. rewrite <- !list_fmap_compose.
  rewrite (list_fmap_ext _ id); [by rewrite list_fmap_id|].
  by intros i [name text] _.
Qed.

(** C7. After two generation runs in a row, what the second run leaves
    does not depend on the first.  The action clears the output
    directory: its content is the same whatever the file system held
    before, and holds nothing but files prompt_i.txt numbered by the
    rows of the second upload.  It persists the upload: uploaded.csv
    holds the second upload.  It renders: on completion the returned
    pairs are one per row of the second upload, in order, named from
    prompt_1.txt on, each the rendering of its sanitized row, and the
    output directory holds exactly these pairs as files.  It archives:
    the members of the archive are exactly these pairs.  The run
    completes whenever the reader does not raise, the template compiles
    and every row renders. *)
Theorem second_run_only (t1 c1 t2 c2 : pystr) (s : filesystem) :
  let run1 := generate t1 c1 s in
  let run2 := generate t2 c2 run1.1 in
  let rd := Csv.DictReader (Csv.open_utf8_sig c2) in
  (forall s0, generated_prompts run2.1 = generated_prompts (generate t2 c2 s0).1)
  /\ data run2.1 !! u "uploaded.csv" = Some c2
  /\ (forall name n, generated_prompts run2.1 !! name = Some n ->
        exists i text, (1 <= i <= length rd.1)%nat
                       /\ name = prompt_filename i /\ n = File text)
  /\ (forall results, run2.2 = inr results ->
        NoDup results.*1
        /\ (forall name n,
              generated_prompts run2.1 !! name = Some n
              <-> exists text, n = File text /\ (name, text) ∈ results)
        /\ results.*1 = prompt_filename <$> seq 1 (length rd.1)
        /\ Forall2 (fun row res =>
                      exists t, Template t2 = inr t
                                /\ render t (clean_row row) = inr res.2)
             rd.1 results
        /\ exists entries,
             output_zip run2.1 = Some entries
             /\ member_pair <$> entries ≡ₚ results)
  /\ (forall t, rd.2 = None -> Template t2 = inr t ->
        Forall (fun row => exists text, render t (clean_row row) = inr text) rd.1 ->
        exists results, run2.2 = inr results).
Proof.
  cbv zeta. split; [|split; [|split; [|split]]].
  - intros s0. by rewrite !generate_unfold.
  - rewrite (generate_unfold t2). cbv zeta. cbn [fst data].
    apply lookup_insert_eq.
  - rewrite (generate_unfold t2). cbv zeta. cbn [fst generated_prompts].
    destruct (render_loop t2 _ _ _ _ _) as [out r] eqn:Hlp. cbn [fst].
    intros name n Hn.
    destruct (render_loop_entries _ _ _ _ _ _ _ _ Hlp name n Hn)
      as [Hin|(i & text & Hi & -> & ->)].
    + by rewrite lookup_empty in Hin.
    + exists i, text. split; [lia|done].
  - intros results. rewrite (generate_unfold t2). cbv zeta.
    cbn [fst snd generated_prompts output_zip].
    destruct (render_loop t2 _ _ _ _ _) as [out r] eqn:Hlp. cbn [fst snd].
    intros ->.
    destruct (render_loop_texts _ _ _ _ _ _ _ _ Hlp) as (new' & Hnew' & Htexts).
    apply render_loop_inr in Hlp as (new & -> & Hnames & -> & _).
    cbn [app] in *. subst new'.
    assert (Hnd : NoDup new.*1).
    { rewrite Hnames. apply NoDup_fmap_2_strong; [|apply NoDup_seq].
      intros ? ? _ _. apply prompt_filename_inj. }
    split; [done|]. split; [|split; [done|split; [done|]]].
    + intros name n. rewrite write_all_lookup; [|done|by intros].
      rewrite lookup_empty. split; [by intros [?|?]|auto].
    + eexists. split; [done|]. by apply members_write_all.
  - intros t Hstop Ht Hall. rewrite (generate_unfold t2). cbv zeta.
    cbn [snd]. rewrite Hstop.
    destruct (render_loop_completes t2 t _ 1 [] ∅ Ht Hall)
      as (out' & results & ->).
    + intros name. by rewrite lookup_empty.
    + by exists results.
Qed.

End successive_runs.
